(** * Synthetix documentation: the token-list builder (scripts/build-tokens.js)

    A shallow embedding of the script that renders [content/tokens/list.md]
    from the synth and token registries of the [synthetix] package.

    - JavaScript Numbers are IEEE 754 binary64 values: [spec_float] of the
      Standard Library with 53 bits of precision, rounded to nearest even.
    - [Number.prototype.toString] and [Number.prototype.toFixed] follow the
      ECMAScript definitions, computed with exact rational arithmetic.
    - JavaScript strings are [string]s; the registry's tickers, names and
      addresses are ASCII, and [toLowerCase] and the [>] comparison are
      modelled on that alphabet (byte order is code-unit order there).
    - A thrown exception is the [Throw] outcome of the [result] monad.
    - The registry ([snx.getSynths], [snx.getTokens], [snx.getUsers]), the
      numbro formatter and the engine's [Array.prototype.sort] are the
      script's collaborators: they are parameters of the model. *)

From Stdlib Require Import ZArith QArith Qround Qabs Qpower String Ascii List Bool Lia.
From Stdlib Require Import Permutation Sorted.
From Stdlib Require Import SpecFloat.
Import ListNotations.

Local Open Scope string_scope.
Local Open Scope Z_scope.

(** ** Outcomes of evaluation *)

Inductive js_error : Type :=
| TypeError
| RangeError.

Inductive result (A : Type) : Type :=
| Ok (a : A)
| Throw (e : js_error).

Arguments Ok {A} a.
Arguments Throw {A} e.

Definition bind {A B : Type} (r : result A) (k : A -> result B) : result B :=
  match r with
  | Ok a => k a
  | Throw e => Throw e
  end.

Notation "x <- r ;; k" := (bind r (fun x => k))
  (at level 61, r at next level, right associativity).

(** [Array.prototype.map] with a callback that may throw: the elements are
    visited from left to right and the first exception aborts the loop. *)
Fixpoint mapM {A B : Type} (f : A -> result B) (l : list A) : result (list B) :=
  match l with
  | [] => Ok []
  | a :: l' => b <- f a ;; bs <- mapM f l' ;; Ok (b :: bs)
  end.

(** ** Strings *)

Module Str.

Definition dot : ascii := "."%char.
Definition space : ascii := " "%char.

(** A double quote and a line feed, as one-character strings. *)
Definition dquote : string := String (ascii_of_nat 34) "".
Definition nl : string := String (ascii_of_nat 10) "".

(** [s.split(sep)] for a one-character separator. *)
Fixpoint split (sep : ascii) (s : string) : list string :=
  match s with
  | EmptyString => [EmptyString]
  | String c s' =>
      if Ascii.eqb c sep then EmptyString :: split sep s'
      else match split sep s' with
           | [] => [String c EmptyString]
           | h :: t => String c h :: t
           end
  end.

(** [parts.join(sep)]. *)
Fixpoint join (sep : string) (parts : list string) : string :=
  match parts with
  | [] => ""
  | [p] => p
  | p :: rest => p ++ sep ++ join sep rest
  end.

(** [s.replace(/^prefix/, '')]: a leading [prefix] is removed once. *)
Definition strip_prefix (prefix s : string) : string :=
  if String.prefix prefix s
  then substring (String.length prefix) (String.length s - String.length prefix) s
  else s.

Definition lower_char (c : ascii) : ascii :=
  let n := nat_of_ascii c in
  if (65 <=? n)%nat && (n <=? 90)%nat then ascii_of_nat (n + 32) else c.

(** [s.toLowerCase()] on the ASCII alphabet. *)
Fixpoint toLowerCase (s : string) : string :=
  match s with
  | EmptyString => EmptyString
  | String c s' => String (lower_char c) (toLowerCase s')
  end.

(** [a > b] on strings: lexicographic on code units. *)
Definition gtb (a b : string) : bool := String.ltb b a.

Fixpoint repeat0 (n : nat) : string :=
  match n with
  | O => ""
  | S n' => String "0"%char (repeat0 n')
  end.

Fixpoint no_char (c : ascii) (s : string) : bool :=
  match s with
  | EmptyString => true
  | String c' s' => negb (Ascii.eqb c' c) && no_char c s'
  end.

(** The decimal digits. *)
Definition is_digit (c : ascii) : bool :=
  (48 <=? nat_of_ascii c)%nat && (nat_of_ascii c <=? 57)%nat.

Fixpoint all_digits (s : string) : bool :=
  match s with
  | EmptyString => true
  | String c s' => is_digit c && all_digits s'
  end.

End Str.

(** ** Numbers *)

Module Num.

Definition prec : Z := 53.
Definition emax : Z := 1024.

(** A JavaScript Number. *)
Definition number : Type := spec_float.

Definition mul : number -> number -> number := SFmul prec emax.
Definition sub : number -> number -> number := SFsub prec emax.

(** The Number of an integer, and of a ratio of two positive integers,
    both rounded to nearest, ties to even. *)
Definition of_Z (z : Z) : number := binary_normalize prec emax z 0 false.
Definition of_ratio (a b : positive) : number :=
  SFdiv prec emax (S754_finite false a 0) (S754_finite false b 0).

(** The Number denoted by the decimal literal [m]e[e10]. *)
Definition dec (m : Z) (e10 : Z) : number :=
  if 0 <=? e10 then of_Z (m * 10 ^ e10)
  else match m with
       | Z0 => S754_zero false
       | Zpos p => of_ratio p (Z.to_pos (10 ^ (- e10)))
       | Zneg p => SFopp (of_ratio p (Z.to_pos (10 ^ (- e10))))
       end.

Definition two : number := of_Z 2.

Definition ten_pow (e : Z) : Q := Qpower (10 # 1) e.

(** The real value of a finite Number (0 for the others). *)
Definition value (x : number) : Q :=
  match x with
  | S754_finite s m e =>
      let v := (inject_Z (Zpos m) * Qpower (2 # 1) e)%Q in
      if s then Qopp v else v
  | _ => 0%Q
  end.

Definition is_negative (x : number) : bool :=
  match x with
  | S754_finite s _ _ => s
  | _ => false
  end.

(** *** Decimal digits of a non-negative integer *)

Definition digit_char (d : Z) : ascii := ascii_of_nat (48 + Z.to_nat d).

Fixpoint digits_aux (fuel : nat) (n : Z) (acc : string) : string :=
  match fuel with
  | O => acc
  | S fuel' =>
      let acc' := String (digit_char (n mod 10)) acc in
      if n / 10 =? 0 then acc' else digits_aux fuel' (n / 10) acc'
  end.

Definition digits (n : Z) : string :=
  digits_aux (S (Z.to_nat (Z.log2 n))) n "".

(** *** Number::toString, radix 10

    For a positive finite [x] the specification asks for integers [n], [k]
    and [s] with [k >= 1], [10^(k-1) <= s < 10^k], the Number of
    [s * 10^(n-k)] being [x], and [k] as small as possible; among several
    [s] the one closest to [x].  Seventeen digits always suffice. *)

(** The least [n >= n0] with [x < 10^n], looking at most [fuel] steps up. *)
Fixpoint scan_exp (fuel : nat) (n : Z) (x : Q) : Z :=
  match fuel with
  | O => n
  | S fuel' => if Qle_bool (ten_pow n) x then scan_exp fuel' (n + 1) x else n
  end.

Definition exp10 (x : Q) : Z := scan_exp 700 (-324) x.

Definition round_trips (x : Q) (k : Z) (c : Z * Z) : bool :=
  let '(s, n) := c in
  (10 ^ (k - 1) <=? s) && (s <? 10 ^ k)
  && Qeq_bool (value (dec s (n - k))) x.

Definition distance (x : Q) (k : Z) (c : Z * Z) : Q :=
  let '(s, n) := c in Qabs (inject_Z s * ten_pow (n - k) - x).

(** The two [k]-digit decimals that enclose [x]. *)
Definition candidates (x : Q) (n0 k : Z) : (Z * Z) * (Z * Z) :=
  let lo := Qfloor (x / ten_pow (n0 - k)) in
  let norm s := if s =? 10 ^ k then (10 ^ (k - 1), n0 + 1) else (s, n0) in
  (norm lo, norm (lo + 1)).

Definition try_digits (x : Q) (n0 k : Z) : option (Z * Z) :=
  let '(c1, c2) := candidates x n0 k in
  match round_trips x k c1, round_trips x k c2 with
  | true, false => Some c1
  | false, true => Some c2
  | true, true =>
      match Qcompare (distance x k c1) (distance x k c2) with
      | Lt => Some c1
      | Gt => Some c2
      | Eq => if Z.even (fst c1) then Some c1 else Some c2
      end
  | false, false => None
  end.

Fixpoint search_digits (x : Q) (n0 : Z) (fuel : nat) (k : Z) : option (Z * Z) :=
  match fuel with
  | O => None
  | S fuel' =>
      match try_digits x n0 k with
      | Some c => Some c
      | None => search_digits x n0 fuel' (k + 1)
      end
  end.

(** The digits [s] and the exponent [n] of a positive real [x]. *)
Definition shortest (x : Q) : Z * Z :=
  match search_digits x (exp10 x) 17 1 with
  | Some c => c
  | None => (0, 0)
  end.

(** The text for digits [ds] (these are [k] characters) and exponent [n]. *)
Definition layout (ds : string) (n : Z) : string :=
  let k := Z.of_nat (String.length ds) in
  if (k <=? n) && (n <=? 21) then
    ds ++ Str.repeat0 (Z.to_nat (n - k))
  else if (0 <? n) && (n <=? 21) then
    substring 0 (Z.to_nat n) ds ++ "." ++ substring (Z.to_nat n) (Z.to_nat (k - n)) ds
  else if (-6 <? n) && (n <=? 0) then
    "0." ++ Str.repeat0 (Z.to_nat (- n)) ++ ds
  else
    let e := n - 1 in
    let es := (if e <? 0 then "-" else "+") ++ digits (Z.abs e) in
    if k =? 1 then ds ++ "e" ++ es
    else substring 0 1 ds ++ "." ++ substring 1 (Z.to_nat (k - 1)) ds ++ "e" ++ es.

Definition positive_toString (x : Q) : string :=
  let '(s, n) := shortest x in layout (digits s) n.

Definition toString (x : number) : string :=
  match x with
  | S754_nan => "NaN"
  | S754_zero _ => "0"
  | S754_infinity s => if s then "-Infinity" else "Infinity"
  | S754_finite s _ _ =>
      (if s then "-" else "") ++ positive_toString (Qabs (value x))
  end.

(** *** Number.prototype.toFixed *)

(** The integer [n] for which [n / 10^f - x] is as close to zero as
    possible, the larger one when there are two. *)
Definition nearest_scaled (x : Q) (f : nat) : Z :=
  Qfloor (x * ten_pow (Z.of_nat f) + (1 # 2)).

(** The digits of [n] with a point before the last [f] of them. *)
Definition fixed_layout (n : Z) (f : nat) : string :=
  let m := digits n in
  match f with
  | O => m
  | S _ =>
      let k := String.length m in
      let m' := if (k <=? f)%nat then Str.repeat0 (f + 1 - k) ++ m else m in
      let k' := String.length m' in
      substring 0 (k' - f) m' ++ "." ++ substring (k' - f) f m'
  end.

Definition toFixed (x : number) (f : nat) : result string :=
  if (100 <? f)%nat then Throw RangeError
  else
    match x with
    | S754_nan | S754_infinity _ => Ok (toString x)
    | _ =>
        let a := Qabs (value x) in
        let sign := if is_negative x then "-" else "" in
        if Qle_bool (ten_pow 21) a then Ok (toString x)
        else Ok (sign ++ fixed_layout (nearest_scaled a f) f)
    end.

End Num.

Import Num.

(** ** The registry's records *)

(** [synth.inverted]: the parameters of an inverted synth. *)
Record inversion : Type := {
  entryPoint : number;
  upperLimit : number;
  lowerLimit : number
}.

(** One element of [synth.index]. *)
Record component : Type := {
  c_symbol : string;
  c_name : string;
  c_units : number
}.

(** An element of [snx.getSynths({ network })].  An absent (undefined)
    property is [None]; an object or an array, even an empty one, is truthy. *)
Record synth : Type := {
  s_name : string;
  s_desc : string;
  s_asset : string;
  s_inverted : option inversion;
  s_index : option (list component)
}.

(** An element of [snx.getTokens({ network })], with the properties the
    script reads.  [desc] is the display name. *)
Record entry : Type := {
  e_symbol : string;
  e_desc : string;
  e_asset : string;
  e_address : string;
  e_decimals : number;
  e_index : option (list component);
  e_inverted : option inversion;
  e_feed : option string
}.

(** An element of [tokens]: [Object.assign({ name: entry.desc, description },
    entry)].  [Object.assign] copies the record's own properties over the two
    new ones; the registry's token records are taken to have none called
    [name] or [description], so both are kept. *)
Record token : Type := {
  name : string;
  description : string;
  symbol : string;
  asset : string;
  address : string;
  decimals : number;
  index : option (list component);
  inverted : option inversion;
  feed : option string
}.

(** ** The threshold calculator *)

(** [(limit.toString().split('.')[1] || '').length] *)
Definition decimals_of (limit : number) : nat :=
  String.length (nth 1 (Str.split Str.dot (toString limit)) "").

Definition doRounding (entry limit : number) : result string :=
  let num := sub (mul entry two) limit in
  let decimals := decimals_of limit in
  toFixed num decimals.

(** ** The describer *)

Definition desc (synth : synth) : result string :=
  let underlying := Str.strip_prefix "Inverted " (s_desc synth) in
  let assetSuffix :=
    if negb (String.eqb (s_name synth) underlying) then " (" ++ s_asset synth ++ ")" else "" in
  if String.eqb (s_name synth) "sUSD" then
    Ok "Tracks the price of a single US Dollar (USD). This Synth always remains constant at 1."
  else
    match s_inverted synth with
    | Some {| entryPoint := entryPoint; upperLimit := upperLimit; lowerLimit := lowerLimit |} =>
        up <- doRounding entryPoint upperLimit ;;
        low <- doRounding entryPoint lowerLimit ;;
        Ok ("Inversely tracks the price of " ++ underlying ++ assetSuffix
            ++ " through price feeds supplied by an oracle. "
            ++ "The entry point is \$" ++ toString entryPoint
            ++ " (the approximate market price at time of creation). "
            ++ "This Synth freezes when it reaches its upper limit of \$" ++ toString upperLimit
            ++ " (i.e. when " ++ underlying ++ "'s "
            ++ "value reaches \$" ++ up
            ++ ") or its lower limit of \$" ++ toString lowerLimit
            ++ " (i.e. when " ++ underlying ++ "’s value "
            ++ "reaches \$" ++ low
            ++ "). If it reaches either of its limits and gets frozen, it will no longer be "
            ++ "able to be purchased on Synthetix.Exchange, but can still be traded for other Synths at its frozen "
            ++ "value. At some point after it has reached either of its limits, it will be substituted for another "
            ++ s_name synth ++ " with different limits.")
    | None =>
        match s_index synth with
        | Some index =>
            Ok ("Tracks the price of the index: " ++ underlying ++ assetSuffix
                ++ " through price feeds supplied by an oracle. "
                ++ "This index is made up of the following assets and weights: "
                ++ Str.join ", "
                     (map (fun c =>
                             toString (c_units c) ++ " of " ++ c_symbol c
                             ++ (if negb (String.eqb (c_name c) (c_symbol c))
                                 then " (" ++ c_name c ++ ")" else ""))
                          index)
                ++ ".")
        | None =>
            Ok ("Tracks the price of " ++ underlying ++ assetSuffix
                ++ " through price feeds supplied by an oracle.")
        end
    end.

(** ** The token list *)

(** [linkMap[asset]].  An object literal inherits the properties of
    [Object.prototype]: reading one of their names gives a function (or, for
    [__proto__], the prototype object), which is truthy and which a template
    literal prints as below (Node.js). *)
Definition linkMap : list (string * string) :=
  [ ("FTSE100", "ftse-gbp"); ("NIKKEI225", "n225-jpy") ].

Definition native (n : string) : string := "function " ++ n ++ "() { [native code] }".

Definition Object_prototype : list (string * string) :=
  [ ("constructor", native "Object");
    ("__defineGetter__", native "__defineGetter__");
    ("__defineSetter__", native "__defineSetter__");
    ("hasOwnProperty", native "hasOwnProperty");
    ("__lookupGetter__", native "__lookupGetter__");
    ("__lookupSetter__", native "__lookupSetter__");
    ("isPrototypeOf", native "isPrototypeOf");
    ("propertyIsEnumerable", native "propertyIsEnumerable");
    ("toString", native "toString");
    ("valueOf", native "valueOf");
    ("__proto__", "[object Object]");
    ("toLocaleString", native "toLocaleString") ].

Fixpoint lookup (key : string) (props : list (string * string)) : option string :=
  match props with
  | [] => None
  | (k, v) :: rest => if String.eqb k key then Some v else lookup key rest
  end.

(** Property read on an object literal: own properties first, then the
    prototype's. *)
Definition get_property (own : list (string * string)) (key : string) : option string :=
  match lookup key own with
  | Some v => Some v
  | None => lookup key Object_prototype
  end.

(** [s] as a condition: a string is truthy when it is not empty. *)
Definition truthy (s : option string) : bool :=
  match s with
  | Some (String _ _) => true
  | _ => false
  end.

Definition getLinkToAsset (name asset : string) : string :=
  Str.toLowerCase (Str.join "-" (tl (Str.split Str.space name)) ++ "-s" ++ asset).

(** What the script writes and prints. *)
Record world : Type := {
  console : list string;
  list_md : option string
}.

Definition console_log (line : string) (w : world) : world :=
  {| console := console w ++ [line]; list_md := list_md w |}.

(** [fs.writeFileSync(path, data)] on [content/tokens/list.md]. *)
Definition writeFileSync (data : string) (w : world) : world :=
  {| console := console w; list_md := Some data |}.

Section Build.

(** [numbro(num).format({ optionalMantissa: true, mantissa: 5,
    thousandSeparated: true })] *)
Variable format : number -> string.

(** [snx.getUsers({ network, user: 'oracle' }).address] *)
Variable snxOracle : string.

(** [Array.prototype.sort(comparefn)] of the engine. *)
Variable sort : (token -> token -> Z) -> list token -> list token.

(** [snx.getSynths({ network })] and [snx.getTokens({ network })] *)
Variable synths : list synth.
Variable entries : list entry.

Definition SNX_description : string :=
  "The Synthetix Network Token (SNX) gets staked as collateral to back Synths and entitles stakers to receive fees generated by Synth trades on Synthetix.Exchange.".

(** The callback of [getTokens(...).map]: [desc(undefined)] throws a
    TypeError when it reads [synth.desc]. *)
Definition make_token (entry : entry) : result token :=
  let synth := find (fun s => String.eqb (s_name s) (e_symbol entry)) synths in
  description <-
    (if String.eqb (e_symbol entry) "SNX" then Ok SNX_description
     else match synth with
          | Some s => desc s
          | None => Throw TypeError
          end) ;;
  Ok {| name := e_desc entry;
        description := description;
        symbol := e_symbol entry;
        asset := e_asset entry;
        address := e_address entry;
        decimals := e_decimals entry;
        index := e_index entry;
        inverted := e_inverted entry;
        feed := e_feed entry |}.

Definition by_asset (a b : token) : Z := if Str.gtb (asset a) (asset b) then 1 else -1.
Definition by_name (a b : token) : Z := if Str.gtb (name a) (name b) then 1 else -1.

Definition tokens : result (list token) :=
  made <- mapM make_token entries ;;
  Ok (sort by_asset made).

Definition addInverseParameters (t : token) : string :=
  match inverted t with
  | None => ""
  | Some inverted =>
      "**Inverse of**: [s" ++ asset t ++ "](#" ++ getLinkToAsset (name t) (asset t) ++ ")"
      ++ Str.nl ++ Str.nl
      ++ "| Entry Point | Upper Limit | Lower Limit |" ++ Str.nl
      ++ "| - | - | - |" ++ Str.nl
      ++ "| $" ++ format (entryPoint inverted) ++ " | $" ++ format (upperLimit inverted)
      ++ " | $" ++ format (lowerLimit inverted) ++ "|" ++ Str.nl ++ Str.nl
  end.

Definition addIndexParameters (t : token) : string :=
  match index t with
  | None => ""
  | Some index =>
      let header :=
        "**Index of**: [s" ++ asset t ++ "](#" ++ getLinkToAsset (name t) (asset t) ++ ")"
        ++ Str.nl ++ Str.nl in
      match inverted t with
      | Some _ => header
      | None =>
          header
          ++ "| Token | Symbol | Units |" ++ Str.nl ++ "| - | - | - |" ++ Str.nl
          ++ Str.join ""
               (map (fun c => "| " ++ c_name c ++ " | " ++ c_symbol c ++ " | "
                              ++ format (c_units c) ++ " |" ++ Str.nl)
                    index)
          ++ Str.nl
      end
  end.

Definition addOracleParameters (t : token) : string :=
  if negb (truthy (feed t)) then
    "**Price Feed**: Synthetix (centralized)" ++ Str.nl ++ Str.nl
    ++ "- Oracle: [" ++ snxOracle ++ "](https://etherscan.io/address/" ++ snxOracle ++ ")"
    ++ Str.nl ++ "- Contract: [ExchangeRates](https://contracts.synthetix.io/ExchangeRates)"
    ++ Str.nl ++ Str.nl
  else
    let symbolLink :=
      match get_property linkMap (asset t) with
      | Some link => link
      | None => Str.toLowerCase (asset t) ++ "-usd"
      end in
    "**Price Feed**: Chainlink (decentralized)" ++ Str.nl ++ Str.nl
    ++ "- Oracles: [Network overview](https://feeds.chain.link/" ++ symbolLink ++ ")"
    ++ Str.nl ++ "- Contract: [Aggregator](https://etherscan.io/address/"
    ++ match feed t with Some f => f | None => "" end ++ ")" ++ Str.nl ++ Str.nl.

(** The callback of [tokens.sort(...).map] in [content]: one section. *)
Definition section_of (t : token) : string :=
  "## " ++ name t ++ " (" ++ symbol t ++ ")" ++ Str.nl ++ Str.nl
  ++ (if String.eqb (asset t) "MKR"
      then "!!! warning " ++ Str.dquote ++ "Suspended" ++ Str.dquote ++ Str.nl ++ Str.nl
           ++ "    MKR has been suspended due to [SIP-34](https://sips.synthetix.io/sips/sip-34)"
           ++ Str.nl ++ Str.nl
      else "")
  ++ "**Contract:** [" ++ address t ++ "](https://etherscan.io/token/" ++ address t ++ ")"
  ++ Str.nl ++ Str.nl
  ++ "**Decimals:** " ++ toString (decimals t) ++ Str.nl ++ Str.nl
  ++ "**Price:** [" ++ symbol t ++ " on synthetix.exchange](https://synthetix.exchange/#/synths/"
  ++ symbol t ++ ")" ++ Str.nl ++ Str.nl
  ++ addOracleParameters t
  ++ addInverseParameters t
  ++ addIndexParameters t
  ++ ">" ++ description t.

Definition content_header : string :=
  Str.nl ++ "# Token List" ++ Str.nl ++ Str.nl
  ++ "!!! Tip " ++ Str.dquote ++ "Decentralizing the remaining price feeds" ++ Str.dquote
  ++ Str.nl ++ Str.nl
  ++ "    We're in the process of migrating all price feeds to Chainlink's decentralized network."
  ++ Str.nl
  ++ "    This change is coming with [SIP-36](https://sips.synthetix.io/sips/sip-36)."
  ++ Str.nl ++ Str.nl.

(** The sections of the document, in the order they are written. *)
Definition sections (tokens : list token) : list token := sort by_name tokens.

Definition content (tokens : list token) : string :=
  content_header
  ++ Str.join (Str.nl ++ Str.nl) (map section_of (sections tokens))
  ++ Str.nl ++ Str.nl.

(** The script, from [console.log] to [fs.writeFileSync]. *)
Definition main (w : world) : world * result unit :=
  let w := console_log "Building tokens.md" w in
  match tokens with
  | Throw e => (w, Throw e)
  | Ok tokens => (writeFileSync (content tokens) w, Ok tt)
  end.

End Build.

(** ** Notions used in the statements *)

(** The number of characters a string has after its first point: the measure
    [doRounding] itself applies to [limit.toString()]. *)
Definition fraction_width (s : string) : nat :=
  String.length (nth 1 (Str.split Str.dot s) "").

(** The number of fractional digits of a Number's decimal representation:
    with [k] significant digits and decimal exponent [n] the representation
    [s * 10^(n-k)] has [k - n] digits after the point, or none. *)
Definition fraction_digits (x : number) : nat :=
  match x with
  | S754_finite _ _ _ =>
      let '(s, n) := shortest (Qabs (value x)) in
      Z.to_nat (Z.of_nat (String.length (digits s)) - n)
  | _ => O
  end.

(** The integer a string of decimal digits denotes. *)
Fixpoint digits_value (s : string) (acc : Z) : Z :=
  match s with
  | EmptyString => acc
  | String c s' => digits_value s' (acc * 10 + (Z.of_nat (nat_of_ascii c) - 48))
  end.

(** The rational a decimal numeral denotes: an optional minus sign, digits,
    and optionally a point and more digits. *)
Definition unsigned_value (s : string) : Q :=
  match Str.split Str.dot s with
  | i :: f :: _ =>
      (inject_Z (digits_value (i ++ f) 0) / ten_pow (Z.of_nat (String.length f)))%Q
  | _ => inject_Z (digits_value s 0)
  end.

Definition decimal_value (s : string) : Q :=
  match s with
  | String "-" s' => Qopp (unsigned_value s')
  | _ => unsigned_value s
  end.

(** A Number that [toFixed] prints in positional notation. *)
Definition fixed_range (x : number) : Prop :=
  match x with
  | S754_nan | S754_infinity _ => False
  | _ => (Qabs (value x) < ten_pow 21)%Q
  end.

(** The script's comparators never answer 0, and their negative answers form
    a total preorder ([a] is not greater than [b]).  ECMAScript leaves the
    order to the engine for them, so the engine's sort is a parameter with a
    contract: it returns the elements rearranged and, for such a comparator,
    the comparator is negative from each element to every later one. *)
Definition total_preorder (cmp : token -> token -> Z) : Prop :=
  (forall a b, cmp a b <> 0)
  /\ (forall a b, cmp a b < 0 \/ cmp b a < 0)
  /\ (forall a b c, cmp a b < 0 -> cmp b c < 0 -> cmp a c < 0).

Definition sorts (sort : (token -> token -> Z) -> list token -> list token) : Prop :=
  forall cmp l,
    Permutation l (sort cmp l)
    /\ (total_preorder cmp -> StronglySorted (fun a b => cmp a b < 0) (sort cmp l)).

(** An insertion sort, one engine's way to sort short arrays: each element
    is moved left past the elements the comparator puts after it. *)
Fixpoint insert (cmp : token -> token -> Z) (x : token) (l : list token) : list token :=
  match l with
  | [] => [x]
  | y :: l' => if 0 <? cmp y x then x :: y :: l' else y :: insert cmp x l'
  end.

Definition insertion_sort (cmp : token -> token -> Z) (l : list token) : list token :=
  fold_left (fun sorted x => insert cmp x sorted) l [].

(** The display name of [a] is not greater than the one of [b]. *)
Definition name_le (a b : token) : Prop := Str.gtb (name a) (name b) = false.

(** The synth the pipeline finds for a token record. *)
Definition matching_synth (synths : list synth) (e : entry) : option synth :=
  find (fun s => String.eqb (s_name s) (e_symbol e)) synths.

(** A comparator of the shape [(a, b) => (a.key > b.key ? 1 : -1)]. *)
Definition by_key (key : token -> string) (a b : token) : Z :=
  if Str.gtb (key a) (key b) then 1 else -1.

(** *** The threshold calculator, read literally *)

(** The fractional digits of the result equal those of [limit]: the reading
    of the specification's sentence, for every pair of Numbers. *)
Definition width_as_stated (entry limit : number) : Prop :=
  forall out, doRounding entry limit = Ok out ->
              fraction_width out = fraction_digits limit.

(** *** The describer's variants *)





(** *** The anchor, read literally from its description: the display name
    without its first token, lower-cased and joined with hyphens, then
    [-s<asset>] appended. *)
Definition anchor_as_stated (name asset : string) : string :=
  Str.toLowerCase (Str.join "-" (tl (Str.split Str.space name))) ++ "-s" ++ asset.

(** *** Runs of the script *)

(** The run throws and leaves the output file as it was. *)
Definition aborts_unwritten
    (format : number -> string) (snxOracle : string)
    (sort : (token -> token -> Z) -> list token -> list token)
    (synths : list synth) (entries : list entry) : Prop :=
  forall w,
    snd (main format snxOracle sort synths entries w) = Throw TypeError
    /\ list_md (fst (main format snxOracle sort synths entries w)) = list_md w.

(** Every token record without a synth of its symbol aborts the run: the
    reading of the specification's sentence. *)
Definition fail_fast_as_stated
    (format : number -> string) (snxOracle : string)
    (sort : (token -> token -> Z) -> list token -> list token)
    (synths : list synth) (entries : list entry) : Prop :=
  (exists e, In e entries /\ matching_synth synths e = None) ->
  aborts_unwritten format snxOracle sort synths entries.

(** The document for the sections [secs]. *)
Definition document (format : number -> string) (snxOracle : string)
    (secs : list token) : string :=
  content_header
  ++ Str.join (Str.nl ++ Str.nl) (map (section_of format snxOracle) secs)
  ++ Str.nl ++ Str.nl.

(** The rows of an index table. *)
Definition index_rows (format : number -> string) (ix : list component) : string :=
  Str.join ""
    (map (fun c => "| " ++ c_name c ++ " | " ++ c_symbol c ++ " | "
                   ++ format (c_units c) ++ " |" ++ Str.nl) ix).

(** The two oracle blocks. *)
Definition centralized_block (snxOracle : string) : string :=
  "**Price Feed**: Synthetix (centralized)" ++ Str.nl ++ Str.nl
  ++ "- Oracle: [" ++ snxOracle ++ "](https://etherscan.io/address/" ++ snxOracle ++ ")"
  ++ Str.nl ++ "- Contract: [ExchangeRates](https://contracts.synthetix.io/ExchangeRates)"
  ++ Str.nl ++ Str.nl.

Definition decentralized_block (slug feed : string) : string :=
  "**Price Feed**: Chainlink (decentralized)" ++ Str.nl ++ Str.nl
  ++ "- Oracles: [Network overview](https://feeds.chain.link/" ++ slug ++ ")"
  ++ Str.nl ++ "- Contract: [Aggregator](https://etherscan.io/address/"
  ++ feed ++ ")" ++ Str.nl ++ Str.nl.

(** The slug the specification gives an asset. *)
Definition slug_as_stated (asset : string) : string :=
  if String.eqb asset "FTSE100" then "ftse-gbp"
  else if String.eqb asset "NIKKEI225" then "n225-jpy"
  else Str.toLowerCase asset ++ "-usd".

(** The names an object literal inherits. *)
Definition inherited (key : string) : Prop := In key (map fst Object_prototype).

(** *** Sample registry data *)

Module Sample.

Definition oracle : string := "0xaC1ED4Fabbd5204E02950D68b6FC8c446AC95362".

Definition empty_world : world := {| console := []; list_md := None |}.

Definition SNX : entry :=
{| e_symbol := "SNX"; e_desc := "Synthetix"; e_asset := "SNX";
   e_address := "0xC011a73ee8576Fb46F5E1c5751cA3B9Fe0af2a6F";
   e_decimals := of_Z 18;
   e_index := None; e_inverted := None; e_feed := None |}.

Definition sBTC : entry :=
{| e_symbol := "sBTC"; e_desc := "Bitcoin"; e_asset := "BTC";
   e_address := "0xfE18be6b3Bd88A2D2A7f928d00292E7a9963CfC6";
   e_decimals := of_Z 18;
   e_index := None; e_inverted := None;
   e_feed := Some "0xF5fff180082d6017036B771bA883025c654BC935" |}.

Definition iBTC_limits : inversion :=
{| entryPoint := of_Z 10600; upperLimit := of_Z 15900; lowerLimit := of_Z 5300 |}.

Definition iBTC : entry :=
{| e_symbol := "iBTC"; e_desc := "Inverted Bitcoin"; e_asset := "BTC";
   e_address := "0xD6014EA05BDe904448B743833dDF07c3C7837481";
   e_decimals := of_Z 18;
   e_index := None; e_inverted := Some iBTC_limits;
   e_feed := Some "0xF5fff180082d6017036B771bA883025c654BC935" |}.

Definition synth_sBTC : synth :=
{| s_name := "sBTC"; s_desc := "Bitcoin"; s_asset := "BTC";
   s_inverted := None; s_index := None |}.

Definition synth_iBTC : synth :=
{| s_name := "iBTC"; s_desc := "Inverted Bitcoin"; s_asset := "BTC";
   s_inverted := Some iBTC_limits; s_index := None |}.

Definition basket : list component :=
[ {| c_symbol := "BNB"; c_name := "Binance Coin"; c_units := dec 6148 (-2) |};
  {| c_symbol := "XRP"; c_name := "XRP"; c_units := of_Z 1000 |} ].

(** A stable unit that also carries inversion and index data. *)
Definition synth_sUSD : synth :=
{| s_name := "sUSD"; s_desc := "US Dollars"; s_asset := "USD";
   s_inverted := Some iBTC_limits; s_index := Some basket |}.

(** An inverted index. *)
Definition synth_iCEX : synth :=
{| s_name := "iCEX"; s_desc := "Inverted Centralised Exchange Index"; s_asset := "CEX";
   s_inverted := Some {| entryPoint := dec 3141 (-1); upperLimit := dec 4711 (-1);
                         lowerLimit := dec 1571 (-1) |};
   s_index := Some basket |}.

Definition synth_sETH : synth :=
{| s_name := "sETH"; s_desc := "Ether"; s_asset := "ETH";
   s_inverted := None; s_index := None |}.

Definition token_sCEX : token :=
{| name := "Centralised Exchange Index"; description := ""; symbol := "sCEX";
   asset := "CEX"; address := "0xeABACD844A196D7Faf3CE596edeBF9900341B420";
   decimals := of_Z 18; index := Some basket; inverted := None; feed := None |}.

(** A token whose asset ticker is the name of an inherited property. *)
Definition token_constructor : token :=
{| name := "Constructor"; description := ""; symbol := "sconstructor";
   asset := "constructor"; address := "0x0";
   decimals := of_Z 18; index := None; inverted := None;
   feed := Some "0xF5fff180082d6017036B771bA883025c654BC935" |}.

End Sample.

(** *** Notions for the further properties *)

(** [s] with every space turned into a hyphen. *)
Fixpoint hyphenate (s : string) : string :=
  match s with
  | EmptyString => EmptyString
  | String c s' => String (if Ascii.eqb c Str.space then "-"%char else c) (hyphenate s')
  end.

(** No capital letter of the ASCII alphabet. *)
Definition is_upper (c : ascii) : bool :=
  (65 <=? nat_of_ascii c)%nat && (nat_of_ascii c <=? 90)%nat.

Fixpoint no_upper (s : string) : bool :=
  match s with
  | EmptyString => true
  | String c s' => negb (is_upper c) && no_upper s'
  end.

(** The token [t] shows the registry record [e]. *)
Definition from_entry (e : entry) (t : token) : Prop :=
  symbol t = e_symbol e /\ name t = e_desc e /\ asset t = e_asset e
  /\ address t = e_address e /\ decimals t = e_decimals e
  /\ index t = e_index e /\ inverted t = e_inverted e /\ feed t = e_feed e.

(** Every token record is the SNX token or has a synth of its symbol. *)
Definition all_matched (synths : list synth) (entries : list entry) : Prop :=
  forall e, In e entries -> e_symbol e = "SNX" \/ matching_synth synths e <> None.

(** *** The sort by asset, read literally: it does not affect the final
    order of the sections. *)
Definition asset_sort_irrelevant
    (sort : (token -> token -> Z) -> list token -> list token)
    (toks : list token) : Prop :=
  sections sort (sort by_asset toks) = sections sort toks.

(** Two records with the same display name. *)
Module Twins.

Definition entries : list entry :=
  [ {| e_symbol := "sAAA"; e_desc := "Twin"; e_asset := "ZZZ";
       e_address := "0x1"; e_decimals := of_Z 18;
       e_index := None; e_inverted := None; e_feed := None |};
    {| e_symbol := "sBBB"; e_desc := "Twin"; e_asset := "AAA";
       e_address := "0x2"; e_decimals := of_Z 18;
       e_index := None; e_inverted := None; e_feed := None |} ].

Definition synths : list synth :=
  [ {| s_name := "sAAA"; s_desc := "Twin"; s_asset := "ZZZ";
       s_inverted := None; s_index := None |};
    {| s_name := "sBBB"; s_desc := "Twin"; s_asset := "AAA";
       s_inverted := None; s_index := None |} ].

End Twins.

(** * Properties *)

(** ** Strings *)

Module StrFacts.
Import Str.

Lemma length_append (a b : string) :
  String.length (a ++ b) = (String.length a + String.length b)%nat.
Proof. induction a as [| c a IH]; simpl; [reflexivity | now rewrite IH]. Qed.

Lemma append_nil_r (a : string) : a ++ "" = a.
Proof. induction a as [| c a IH]; simpl; [reflexivity | now rewrite IH]. Qed.

Lemma append_assoc (a b c : string) : (a ++ b) ++ c = a ++ b ++ c.
Proof. induction a as [| x a IH]; simpl; [reflexivity | now rewrite IH]. Qed.

Lemma length_repeat0 (n : nat) : String.length (repeat0 n) = n.
Proof. induction n as [| n IH]; simpl; [reflexivity | now rewrite IH]. Qed.

Lemma length_substring (n m : nat) (s : string) :
  (n + m <= String.length s)%nat -> String.length (substring n m s) = m.
Proof.
  revert n m. induction s as [| c s IH]; intros n m H; simpl in *.
  - destruct n, m; simpl in *; try reflexivity; lia.
  - destruct n as [| n].
    + destruct m as [| m]; simpl; [reflexivity |].
      rewrite (IH O m); [reflexivity | simpl; lia].
    + apply IH. lia.
Qed.

(** Cutting a string in two at any position loses nothing. *)
Lemma substring_split (n : nat) (s : string) :
  (n <= String.length s)%nat ->
  substring 0 n s ++ substring n (String.length s - n) s = s.
Proof.
  revert n. induction s as [| c s IH]; intros n H; simpl in *.
  - destruct n; simpl; [reflexivity | lia].
  - destruct n as [| n]; simpl.
    + f_equal. specialize (IH O (Nat.le_0_l _)).
      rewrite Nat.sub_0_r in IH.
      destruct s; simpl in *; [reflexivity | exact IH].
    + f_equal. apply IH. lia.
Qed.

Lemma no_char_append (c : ascii) (a b : string) :
  no_char c (a ++ b) = no_char c a && no_char c b.
Proof.
  induction a as [| x a IH]; simpl; [reflexivity |].
  rewrite IH. now rewrite andb_assoc.
Qed.

Lemma no_char_repeat0 (c : ascii) (n : nat) :
  c <> "0"%char -> no_char c (repeat0 n) = true.
Proof.
  intros H. induction n as [| n IH]; cbn [repeat0 no_char]; [reflexivity |].
  rewrite IH, andb_true_r. apply negb_true_iff, Ascii.eqb_neq. congruence.
Qed.

Lemma no_char_substring (c : ascii) (n m : nat) (s : string) :
  no_char c s = true -> no_char c (substring n m s) = true.
Proof.
  revert n m. induction s as [| x s IH]; intros n m H; simpl in *.
  - destruct n, m; reflexivity.
  - apply andb_true_iff in H as [Hx Hs].
    destruct n as [| n].
    + destruct m as [| m]; simpl; [reflexivity |].
      now rewrite Hx, (IH O m Hs).
    + now apply IH.
Qed.

(** A string without the separator is one segment. *)
Lemma split_no_sep (c : ascii) (s : string) :
  no_char c s = true -> split c s = [s].
Proof.
  induction s as [| x s IH]; simpl; intros H; [reflexivity |].
  apply andb_true_iff in H as [Hx Hs].
  apply negb_true_iff in Hx. rewrite Hx, (IH Hs). reflexivity.
Qed.

(** The first separator ends the first segment. *)
Lemma split_at_sep (c : ascii) (a b : string) :
  no_char c a = true -> split c (a ++ String c b) = a :: split c b.
Proof.
  induction a as [| x a IH]; simpl; intros H.
  - now rewrite Ascii.eqb_refl.
  - apply andb_true_iff in H as [Hx Ha].
    apply negb_true_iff in Hx. rewrite Hx, (IH Ha). reflexivity.
Qed.

(** No segment is longer than the string. *)
Lemma split_segment_length (c : ascii) (s : string) (i : nat) :
  (String.length (nth i (split c s) "") <= String.length s)%nat.
Proof.
  revert i. induction s as [| x s IH]; intros i; simpl.
  - destruct i as [| [| i]]; simpl; lia.
  - destruct (Ascii.eqb x c).
    + destruct i as [| i]; simpl; [lia |]. specialize (IH i). lia.
    + destruct (split c s) as [| h t] eqn:E.
      * destruct i as [| [| i]]; simpl; lia.
      * destruct i as [| i]; simpl.
        -- specialize (IH O). simpl in IH. lia.
        -- specialize (IH (S i)). simpl in IH. lia.
Qed.

(** The width of [a.b] when neither part has a point. *)
Lemma fraction_width_point (a b : string) :
  no_char dot a = true -> no_char dot b = true ->
  fraction_width (a ++ String dot b) = String.length b.
Proof.
  intros Ha Hb. unfold fraction_width.
  rewrite (split_at_sep _ _ _ Ha), (split_no_sep _ _ Hb). reflexivity.
Qed.

Lemma fraction_width_none (a : string) :
  no_char dot a = true -> fraction_width a = O.
Proof. intros Ha. unfold fraction_width. now rewrite (split_no_sep _ _ Ha). Qed.

End StrFacts.

(** ** Decimal digits *)

Module DigitFacts.
Import Str StrFacts.

Lemma digit_char_code (d : Z) :
  0 <= d < 10 -> nat_of_ascii (digit_char d) = (48 + Z.to_nat d)%nat.
Proof. intros H. unfold digit_char. apply nat_ascii_embedding. lia. Qed.

Lemma is_digit_digit_char (n : Z) : is_digit (digit_char (n mod 10)) = true.
Proof.
  pose proof (Z.mod_pos_bound n 10 ltac:(lia)) as H.
  unfold is_digit. rewrite (digit_char_code _ H).
  apply andb_true_iff; split; apply Nat.leb_le; lia.
Qed.

Lemma all_digits_aux (fuel : nat) (n : Z) (acc : string) :
  all_digits acc = true -> all_digits (digits_aux fuel n acc) = true.
Proof.
  revert n acc. induction fuel as [| fuel IH]; intros n acc H; simpl; [exact H |].
  assert (all_digits (String (digit_char (n mod 10)) acc) = true) as H'
    by (cbn [all_digits]; now rewrite is_digit_digit_char, H).
  destruct (n / 10 =? 0); [exact H' | now apply IH].
Qed.

Lemma all_digits_digits (n : Z) : all_digits (digits n) = true.
Proof. now apply all_digits_aux. Qed.

Lemma all_digits_no_char (c : ascii) (s : string) :
  is_digit c = false -> all_digits s = true -> no_char c s = true.
Proof.
  intros Hc. induction s as [| x s IH]; cbn [all_digits no_char]; intros H; [reflexivity |].
  apply andb_true_iff in H as [Hx Hs]. rewrite (IH Hs), andb_true_r.
  apply negb_true_iff, Ascii.eqb_neq. intros ->. congruence.
Qed.

Lemma all_digits_repeat0 (n : nat) : all_digits (repeat0 n) = true.
Proof. induction n as [| n IH]; [reflexivity | exact IH]. Qed.

Lemma all_digits_append (a b : string) :
  all_digits (a ++ b) = all_digits a && all_digits b.
Proof.
  induction a as [| x a IH]; cbn [append all_digits]; [reflexivity |].
  now rewrite IH, andb_assoc.
Qed.

(** Every integer has at least one digit. *)
Lemma length_digits_aux_ge (fuel : nat) (n : Z) (acc : string) :
  (String.length acc + Nat.min fuel 1 <= String.length (digits_aux fuel n acc))%nat.
Proof.
  revert n acc. induction fuel as [| fuel IH]; intros n acc; cbn [digits_aux]; [simpl; lia |].
  destruct (n / 10 =? 0); [simpl; lia |].
  specialize (IH (n / 10) (String (digit_char (n mod 10)) acc)).
  simpl String.length in IH. lia.
Qed.

Lemma length_digits_pos (n : Z) : (1 <= String.length (digits n))%nat.
Proof.
  unfold digits.
  pose proof (length_digits_aux_ge (S (Z.to_nat (Z.log2 n))) n "") as H.
  change (String.length "") with O in H.
  change (Nat.min (S (Z.to_nat (Z.log2 n))) 1) with (S (Nat.min (Z.to_nat (Z.log2 n)) 0)) in H.
  lia.
Qed.

(** A number below [10^k] has at most [k] digits. *)
Lemma length_digits_aux_le (fuel : nat) :
  forall (k : nat) (n : Z) (acc : string),
    (1 <= k)%nat -> 0 <= n < 10 ^ Z.of_nat k ->
    (String.length (digits_aux (S fuel) n acc) <= k + String.length acc)%nat.
Proof.
  induction fuel as [| fuel IH]; intros k n acc Hk Hn.
  - simpl. destruct (n / 10 =? 0); simpl; lia.
  - cbn [digits_aux]. destruct (Z.eqb_spec (n / 10) 0) as [E | E]; [simpl; lia |].
    destruct k as [| [| k]]; [lia | |].
    + exfalso. apply E. apply Z.div_small. change (10 ^ Z.of_nat 1) with 10 in Hn. lia.
    + assert (0 <= n / 10 < 10 ^ Z.of_nat (S k)) as Hn'.
      { split; [apply Z.div_pos; lia |].
        apply Z.div_lt_upper_bound; [lia |].
        replace (Z.of_nat (S (S k))) with (Z.succ (Z.of_nat (S k))) in Hn by lia.
        rewrite Z.pow_succ_r in Hn by lia. lia. }
      specialize (IH (S k) (n / 10) (String (digit_char (n mod 10)) acc) ltac:(lia) Hn').
      cbn [digits_aux] in IH. simpl String.length in IH. lia.
Qed.

Lemma length_digits_le (k : nat) (n : Z) :
  (1 <= k)%nat -> 0 <= n < 10 ^ Z.of_nat k -> (String.length (digits n) <= k)%nat.
Proof.
  intros Hk Hn. unfold digits.
  pose proof (length_digits_aux_le (Z.to_nat (Z.log2 n)) k n "" Hk Hn) as H.
  change (String.length "") with O in H. lia.
Qed.

(** Reading digits back. *)
Lemma digits_value_append (a b : string) (acc : Z) :
  digits_value (a ++ b) acc = digits_value b (digits_value a acc).
Proof. revert acc. induction a as [| x a IH]; intros acc; simpl; [reflexivity | apply IH]. Qed.

Lemma digits_value_repeat0 (n : nat) : digits_value (repeat0 n) 0 = 0.
Proof. induction n as [| n IH]; [reflexivity | exact IH]. Qed.

Lemma digits_value_aux (fuel : nat) :
  forall (n : Z) (acc : string) (a : Z),
    0 <= n < 10 ^ Z.of_nat fuel ->
    exists len : nat,
      digits_value (digits_aux fuel n acc) a = digits_value acc (a * 10 ^ Z.of_nat len + n).
Proof.
  induction fuel as [| fuel IH]; intros n acc a Hn.
  - exists O. simpl in *. f_equal. lia.
  - cbn [digits_aux].
    pose proof (Z.mod_pos_bound n 10 ltac:(lia)) as Hd.
    assert (forall b, digits_value (String (digit_char (n mod 10)) acc) b
                      = digits_value acc (b * 10 + n mod 10)) as Hstep.
    { intros b. cbn [digits_value]. rewrite (digit_char_code _ Hd). f_equal. lia. }
    destruct (Z.eqb_spec (n / 10) 0) as [E | E].
    + exists 1%nat. rewrite Hstep. f_equal.
      pose proof (Z.div_mod n 10 ltac:(lia)). change (10 ^ Z.of_nat 1) with 10. lia.
    + assert (0 <= n / 10 < 10 ^ Z.of_nat fuel) as Hn'.
      { split; [apply Z.div_pos; lia |].
        apply Z.div_lt_upper_bound; [lia |].
        replace (Z.of_nat (S fuel)) with (Z.succ (Z.of_nat fuel)) in Hn by lia.
        rewrite Z.pow_succ_r in Hn by lia. lia. }
      destruct (IH (n / 10) (String (digit_char (n mod 10)) acc) a Hn') as [len Hlen].
      exists (S len). rewrite Hlen, Hstep. f_equal.
      replace (Z.of_nat (S len)) with (Z.succ (Z.of_nat len)) by lia.
      rewrite Z.pow_succ_r by lia.
      pose proof (Z.div_mod n 10 ltac:(lia)). lia.
Qed.

Lemma digits_fuel (n : Z) : 0 <= n -> n < 10 ^ Z.of_nat (S (Z.to_nat (Z.log2 n))).
Proof.
  intros Hn.
  replace (Z.of_nat (S (Z.to_nat (Z.log2 n)))) with (Z.succ (Z.log2 n))
    by (pose proof (Z.log2_nonneg n); lia).
  destruct (Z.eq_dec n 0) as [-> | Hz]; [reflexivity |].
  pose proof (Z.log2_spec n ltac:(lia)) as [_ H].
  eapply Z.lt_le_trans; [exact H |].
  apply (Z.pow_le_mono_l 2 10 (Z.succ (Z.log2 n))). lia.
Qed.

Theorem digits_value_digits (n : Z) : 0 <= n -> digits_value (digits n) 0 = n.
Proof.
  intros Hn. unfold digits.
  destruct (digits_value_aux _ n "" 0 (conj Hn (digits_fuel n Hn))) as [len H].
  rewrite H. simpl. reflexivity.
Qed.

End DigitFacts.

(** ** Number to text *)

Module NumFacts.
Import Str StrFacts DigitFacts.

Lemma scan_exp_bounds (fuel : nat) (n : Z) (x : Q) :
  n <= scan_exp fuel n x <= n + Z.of_nat fuel.
Proof.
  revert n. induction fuel as [| fuel IH]; intros n; cbn [scan_exp]; [lia |].
  destruct (Qle_bool (ten_pow n) x); [| lia].
  specialize (IH (n + 1)). lia.
Qed.

Lemma exp10_bounds (x : Q) : -324 <= exp10 x <= 376.
Proof. unfold exp10. pose proof (scan_exp_bounds 700 (-324) x). lia. Qed.

Lemma round_trips_digits (x : Q) (k s n : Z) :
  round_trips x k (s, n) = true -> 10 ^ (k - 1) <= s < 10 ^ k.
Proof.
  unfold round_trips. intros H.
  apply andb_true_iff in H as [H _]. apply andb_true_iff in H as [H1 H2].
  apply Z.leb_le in H1. apply Z.ltb_lt in H2. lia.
Qed.

Lemma candidates_exponent (x : Q) (n0 k : Z) (c1 c2 : Z * Z) :
  candidates x n0 k = (c1, c2) ->
  (snd c1 = n0 \/ snd c1 = n0 + 1) /\ (snd c2 = n0 \/ snd c2 = n0 + 1).
Proof.
  unfold candidates. intros H. apply pair_equal_spec in H as [<- <-].
  split.
  - destruct (Qfloor (x / ten_pow (n0 - k)) =? 10 ^ k); cbn [snd]; auto.
  - destruct (Qfloor (x / ten_pow (n0 - k)) + 1 =? 10 ^ k); cbn [snd]; auto.
Qed.

Lemma try_digits_some (x : Q) (n0 k s n : Z) :
  try_digits x n0 k = Some (s, n) ->
  10 ^ (k - 1) <= s < 10 ^ k /\ (n = n0 \/ n = n0 + 1).
Proof.
  unfold try_digits.
  destruct (candidates x n0 k) as [c1 c2] eqn:Ec.
  destruct (candidates_exponent _ _ _ _ _ Ec) as [H1 H2].
  destruct (round_trips x k c1) eqn:R1, (round_trips x k c2) eqn:R2;
    [ destruct (Qcompare (distance x k c1) (distance x k c2));
      [ destruct (Z.even (fst c1)) | | ] | | | ];
    intros H; try discriminate; injection H as E; subst;
    match goal with
    | R : round_trips _ _ (s, n) = true |- _ =>
        split; [exact (round_trips_digits _ _ _ _ R) | assumption]
    end.
Qed.

Lemma search_digits_some (x : Q) (n0 : Z) (fuel : nat) :
  forall k s n,
    1 <= k ->
    search_digits x n0 fuel k = Some (s, n) ->
    0 <= s < 10 ^ (k + Z.of_nat fuel - 1) /\ (n = n0 \/ n = n0 + 1).
Proof.
  induction fuel as [| fuel IH]; intros k s n Hk; cbn [search_digits]; [discriminate |].
  destruct (try_digits x n0 k) as [c |] eqn:E.
  - intros H. injection H as ->.
    destruct (try_digits_some _ _ _ _ _ E) as [[Hlo Hhi] Hn].
    split; [| exact Hn]. split.
    + pose proof (Z.pow_nonneg 10 (k - 1) ltac:(lia)). lia.
    + eapply Z.lt_le_trans; [exact Hhi |].
      apply Z.pow_le_mono_r; lia.
  - intros H. destruct (IH (k + 1) s n ltac:(lia) H) as [Hs Hn].
    split; [| exact Hn].
    replace (k + Z.of_nat (S fuel) - 1) with (k + 1 + Z.of_nat fuel - 1) by lia.
    exact Hs.
Qed.

(** The digits found are at most seventeen and the exponent is the one of
    a binary64 value. *)
Lemma shortest_bounds (x : Q) (s n : Z) :
  shortest x = (s, n) -> 0 <= s < 10 ^ 17 /\ -324 <= n <= 377.
Proof.
  unfold shortest.
  destruct (search_digits x (exp10 x) 17 1) as [c |] eqn:E.
  - intros ->.
    destruct (search_digits_some x (exp10 x) 17 1 s n ltac:(lia) E) as [Hs Hn].
    split; [exact Hs |]. pose proof (exp10_bounds x). lia.
  - intros H. injection H as <- <-. lia.
Qed.

Lemma length_substring_le (n m : nat) (s : string) :
  (String.length (substring n m s) <= m)%nat.
Proof.
  revert n m. induction s as [| c s IH]; intros n m; simpl.
  - destruct n, m; simpl; lia.
  - destruct n as [| n].
    + destruct m as [| m]; simpl; [lia |]. specialize (IH O m). lia.
    + apply IH.
Qed.

(** The text of a finite Number is short. *)
Lemma length_layout (ds : string) (n : Z) :
  (String.length ds <= 17)%nat -> -324 <= n <= 377 ->
  (String.length (layout ds n) <= 50)%nat.
Proof.
  intros Hk Hn. unfold layout.
  assert (String.length (digits (Z.abs (n - 1))) <= 3)%nat as He
    by (apply length_digits_le; [lia | change (10 ^ Z.of_nat 3) with 1000; lia]).
  repeat match goal with
         | |- context [if ?b then _ else _] => destruct b eqn:?
         end;
    repeat rewrite length_append; cbn [String.length];
    repeat rewrite length_repeat0;
    repeat match goal with
           | |- context [String.length (substring ?a ?b ?c)] =>
               pose proof (length_substring_le a b c);
               generalize dependent (String.length (substring a b c)); intros
           end;
    repeat match goal with
           | H : (_ && _) = true |- _ => apply andb_true_iff in H as [? ?]
           | H : (_ <=? _) = true |- _ => apply Z.leb_le in H
           | H : (_ <? _) = true |- _ => apply Z.ltb_lt in H
           end;
    lia.
Qed.

Theorem length_toString (x : number) : (String.length (toString x) <= 51)%nat.
Proof.
  destruct x as [s | s | | s m e]; try (destruct s; simpl; lia); [simpl; lia |].
  cbn [toString]. unfold positive_toString.
  destruct (shortest (Qabs (value (S754_finite s m e)))) as [d n] eqn:E.
  destruct (shortest_bounds _ _ _ E) as [Hd Hn].
  pose proof (length_layout (digits d) n
                (length_digits_le 17 d ltac:(lia) Hd) Hn) as H.
  rewrite length_append. destruct s; simpl String.length; lia.
Qed.

(** [toFixed] is always called with an admissible number of digits. *)
Theorem decimals_of_le (limit : number) : (decimals_of limit <= 51)%nat.
Proof.
  unfold decimals_of.
  eapply Nat.le_trans; [apply split_segment_length | apply length_toString].
Qed.

(** *** toFixed *)

Lemma fixed_layout_parts (n : Z) (f : nat) :
  exists a b : string,
    fixed_layout n (S f) = a ++ String dot b
    /\ String.length b = S f
    /\ all_digits (a ++ b) = true
    /\ digits_value (a ++ b) 0 = digits_value (digits n) 0.
Proof.
  unfold fixed_layout.
  set (m := digits n).
  set (m' := if (String.length m <=? S f)%nat
             then repeat0 (S f + 1 - String.length m) ++ m else m).
  assert (S f < String.length m')%nat as Hlen.
  { unfold m'. destruct (Nat.leb_spec (String.length m) (S f)).
    - rewrite length_append, length_repeat0. lia.
    - lia. }
  assert (all_digits m' = true) as Hd.
  { unfold m'. destruct (String.length m <=? S f)%nat.
    - rewrite all_digits_append, all_digits_repeat0. apply all_digits_digits.
    - apply all_digits_digits. }
  assert (digits_value m' 0 = digits_value m 0) as Hv.
  { unfold m'. destruct (String.length m <=? S f)%nat; [| reflexivity].
    now rewrite digits_value_append, digits_value_repeat0. }
  exists (substring 0 (String.length m' - S f) m'),
         (substring (String.length m' - S f) (S f) m').
  assert (substring 0 (String.length m' - S f) m'
          ++ substring (String.length m' - S f) (S f) m' = m') as Hsplit.
  { pose proof (substring_split (String.length m' - S f) m' ltac:(lia)) as H.
    replace (String.length m' - (String.length m' - S f))%nat with (S f) in H by lia.
    exact H. }
  split; [reflexivity |].
  split; [apply length_substring; lia |].
  rewrite Hsplit. split; assumption.
Qed.

Lemma no_dot_digits (s : string) : all_digits s = true -> no_char dot s = true.
Proof. apply all_digits_no_char. reflexivity. Qed.

Lemma all_digits_parts (a b : string) :
  all_digits (a ++ b) = true -> all_digits a = true /\ all_digits b = true.
Proof. rewrite all_digits_append. apply andb_true_iff. Qed.

(** The result of [toFixed] has exactly the digits asked for. *)
Lemma fraction_width_fixed_layout (sign : string) (n : Z) (f : nat) :
  no_char dot sign = true ->
  fraction_width (sign ++ fixed_layout n f) = f.
Proof.
  intros Hs. destruct f as [| f].
  - apply fraction_width_none. rewrite no_char_append, Hs.
    apply no_dot_digits, all_digits_digits.
  - destruct (fixed_layout_parts n f) as (a & b & -> & Hb & Hd & _).
    apply all_digits_parts in Hd as [Ha Hb'].
    rewrite <- append_assoc, fraction_width_point, Hb; try reflexivity.
    + rewrite no_char_append, Hs. now apply no_dot_digits.
    + now apply no_dot_digits.
Qed.

(** ... and denotes [n / 10^f]. *)
Lemma unsigned_value_fixed_layout (n : Z) (f : nat) :
  0 <= n ->
  (unsigned_value (fixed_layout n f) == inject_Z n / ten_pow (Z.of_nat f))%Q.
Proof.
  intros Hn. destruct f as [| f].
  - unfold unsigned_value, fixed_layout.
    rewrite (split_no_sep dot (digits n)) by apply no_dot_digits, all_digits_digits.
    rewrite digits_value_digits by exact Hn.
    change (ten_pow (Z.of_nat 0)) with 1%Q. field.
  - destruct (fixed_layout_parts n f) as (a & b & -> & Hb & Hd & Hv).
    apply all_digits_parts in Hd as [Ha Hb'].
    unfold unsigned_value.
    rewrite (split_at_sep dot a b) by now apply no_dot_digits.
    rewrite (split_no_sep dot b) by now apply no_dot_digits.
    rewrite Hv, Hb, digits_value_digits by exact Hn. reflexivity.
Qed.

Lemma fixed_layout_first (n : Z) (f : nat) :
  exists c rest, fixed_layout n f = String c rest /\ c <> "-"%char.
Proof.
  assert (forall s, (1 <= String.length s)%nat -> no_char "-" s = true ->
                    exists c rest, s = String c rest /\ c <> "-"%char) as first.
  { intros [| c rest] Hl Hm; [simpl in Hl; lia |].
    exists c, rest. split; [reflexivity |].
    cbn [no_char] in Hm. apply andb_true_iff in Hm as [Hm _].
    now apply negb_true_iff, Ascii.eqb_neq in Hm. }
  destruct f as [| f].
  - apply first; [apply length_digits_pos |].
    apply all_digits_no_char; [reflexivity | apply all_digits_digits].
  - destruct (fixed_layout_parts n f) as (a & b & -> & Hb & Hd & _).
    apply all_digits_parts in Hd as [Ha Hb'].
    apply first.
    + rewrite length_append. simpl. lia.
    + rewrite no_char_append. cbn [no_char].
      rewrite (all_digits_no_char "-" a), (all_digits_no_char "-" b) by easy.
      reflexivity.
Qed.

Lemma decimal_value_fixed_layout (neg : bool) (n : Z) (f : nat) :
  0 <= n ->
  (decimal_value ((if neg then "-" else "") ++ fixed_layout n f)
   == (if neg then - (inject_Z n / ten_pow (Z.of_nat f))
       else inject_Z n / ten_pow (Z.of_nat f)))%Q.
Proof.
  intros Hn. destruct neg.
  - cbn [append decimal_value]. now rewrite unsigned_value_fixed_layout.
  - cbn [append].
    destruct (fixed_layout_first n f) as (c & rest & E & Hc).
    unfold decimal_value.
    rewrite <- (unsigned_value_fixed_layout n f Hn), E.
    destruct c as [[] [] [] [] [] [] [] []]; try reflexivity.
    now contradiction Hc.
Qed.

(** The integer [toFixed] prints is the one nearest to [x * 10^f], the
    larger one of two. *)
Lemma nearest_scaled_spec (x : Q) (f : nat) :
  (x * ten_pow (Z.of_nat f) - (1 # 2) < inject_Z (nearest_scaled x f)
   /\ inject_Z (nearest_scaled x f) <= x * ten_pow (Z.of_nat f) + (1 # 2))%Q.
Proof.
  unfold nearest_scaled.
  set (y := (x * ten_pow (Z.of_nat f) + (1 # 2))%Q).
  split.
  - pose proof (Qlt_floor y) as H.
    rewrite inject_Z_plus in H.
    apply (Qplus_lt_l _ _ (- inject_Z 1)) in H.
    setoid_replace (inject_Z (Qfloor y) + inject_Z 1 + - inject_Z 1)%Q
      with (inject_Z (Qfloor y)) in H by ring.
    eapply Qle_lt_trans; [| exact H].
    unfold y. apply Qle_lteq. right. unfold inject_Z. ring.
  - apply Qfloor_le.
Qed.

Lemma ten_pow_pos (e : Z) : (0 < ten_pow e)%Q.
Proof. unfold ten_pow. now apply Qpower_0_lt. Qed.

Lemma nearest_scaled_nonneg (x : Q) (f : nat) :
  (0 <= x)%Q -> 0 <= nearest_scaled x f.
Proof.
  intros Hx. unfold nearest_scaled.
  change 0 with (Qfloor 0). apply Qfloor_resp_le.
  apply Qle_trans with (x * ten_pow (Z.of_nat f) + 0)%Q.
  - rewrite Qplus_0_r. apply Qmult_le_0_compat; [exact Hx |].
    apply Qlt_le_weak, ten_pow_pos.
  - apply Qplus_le_r. discriminate.
Qed.

(** *** Positional notation *)

(** A text with an exponent marker. *)
Ltac has_marker H :=
  repeat (first [rewrite no_char_append in H | progress (cbn [no_char append] in H)]);
  rewrite Ascii.eqb_refl in H; cbn [negb andb] in H;
  rewrite ?andb_false_r in H; discriminate H.

(** Without an exponent the characters after the point are the [k - n]
    fractional digits. *)
Lemma fraction_width_layout (sign ds : string) (n : Z) :
  no_char dot sign = true -> all_digits ds = true ->
  no_char "e" (layout ds n) = true ->
  fraction_width (sign ++ layout ds n) = Z.to_nat (Z.of_nat (String.length ds) - n).
Proof.
  intros Hs Hd. unfold layout.
  pose proof (no_dot_digits ds Hd) as Hdot.
  destruct ((Z.of_nat (String.length ds) <=? n) && (n <=? 21)) eqn:B1;
    [| destruct ((0 <? n) && (n <=? 21)) eqn:B2;
       [| destruct ((-6 <? n) && (n <=? 0)) eqn:B3;
          [| destruct (Z.of_nat (String.length ds) =? 1) ] ] ];
    intros He.
  - apply andb_true_iff in B1 as [B1 _]. apply Z.leb_le in B1.
    rewrite fraction_width_none.
    + lia.
    + rewrite !no_char_append, Hs, Hdot. now apply no_char_repeat0.
  - apply andb_true_iff in B2 as [B2 B2']. apply Z.ltb_lt in B2. apply Z.leb_le in B2'.
    apply andb_false_iff in B1 as [B1 | B1];
      [apply Z.leb_gt in B1 | apply Z.leb_gt in B1; lia].
    cbn [append]. rewrite <- append_assoc, fraction_width_point.
    + rewrite length_substring; lia.
    + rewrite no_char_append, Hs. now apply no_char_substring.
    + now apply no_char_substring.
  - apply andb_true_iff in B3 as [B3 B3']. apply Z.ltb_lt in B3. apply Z.leb_le in B3'.
    change ("0." ++ repeat0 (Z.to_nat (- n)) ++ ds)
      with ("0" ++ String dot (repeat0 (Z.to_nat (- n)) ++ ds)).
    rewrite <- append_assoc, fraction_width_point.
    + rewrite length_append, length_repeat0. lia.
    + rewrite no_char_append, Hs. reflexivity.
    + rewrite no_char_append, Hdot. now rewrite no_char_repeat0.
  - has_marker He.
  - has_marker He.
Qed.

Theorem decimals_positional (limit : number) :
  no_char "e" (toString limit) = true -> decimals_of limit = fraction_digits limit.
Proof.
  destruct limit as [s | s | | s m e]; try (destruct s; reflexivity); [reflexivity |].
  unfold decimals_of, fraction_digits. cbn [toString]. unfold positive_toString.
  destruct (shortest (Qabs (value (S754_finite s m e)))) as [d n].
  intros He. rewrite no_char_append in He. apply andb_true_iff in He as [_ He].
  apply (fraction_width_layout (if s then "-" else "") (digits d) n);
    [now destruct s | apply all_digits_digits | exact He].
Qed.

(** *** The threshold calculator *)

Lemma toFixed_fixed (x : number) (f : nat) :
  (f <= 100)%nat -> fixed_range x ->
  toFixed x f
  = Ok ((if is_negative x then "-" else "")
        ++ fixed_layout (nearest_scaled (Qabs (value x)) f) f).
Proof.
  intros Hf Hx. unfold toFixed.
  destruct (Nat.ltb_spec 100 f); [lia |].
  assert (Qle_bool (ten_pow 21) (Qabs (value x)) = false) as Hb.
  { destruct (Qle_bool (ten_pow 21) (Qabs (value x))) eqn:E; [| reflexivity].
    apply Qle_bool_iff in E. destruct x; cbn [fixed_range] in Hx;
      try contradiction; now apply Qlt_not_le in Hx. }
  destruct x; cbn [fixed_range] in Hx; try contradiction; now rewrite Hb.
Qed.

Lemma toFixed_ok (x : number) (f : nat) :
  (f <= 100)%nat -> exists out, toFixed x f = Ok out.
Proof.
  intros Hf. unfold toFixed.
  destruct (Nat.ltb_spec 100 f); [lia |].
  destruct x; try (eexists; reflexivity);
    destruct (Qle_bool _ _); eexists; reflexivity.
Qed.

Theorem doRounding_ok (entry limit : number) :
  exists out, doRounding entry limit = Ok out.
Proof.
  unfold doRounding. apply toFixed_ok.
  pose proof (decimals_of_le limit). lia.
Qed.

End NumFacts.

(** ** Order and sorting *)

Module SortFacts.

Lemma leb_trans (a b c : string) :
  String.leb a b = true -> String.leb b c = true -> String.leb a c = true.
Proof.
  unfold String.leb. revert b c.
  induction a as [| x a IH]; intros [| y b] [| z c]; cbn [String.compare];
    try easy.
  unfold Ascii.compare.
  destruct (N.compare_spec (N_of_ascii x) (N_of_ascii y)),
           (N.compare_spec (N_of_ascii y) (N_of_ascii z)),
           (N.compare_spec (N_of_ascii x) (N_of_ascii z));
    try easy; try lia.
  apply IH.
Qed.

Lemma gtb_false_leb (a b : string) : Str.gtb a b = false <-> String.leb a b = true.
Proof.
  unfold Str.gtb, String.ltb, String.leb.
  rewrite (String.compare_antisym a b).
  destruct (String.compare b a); simpl; split; congruence.
Qed.

Lemma name_le_leb (a b : token) : name_le a b <-> String.leb (name a) (name b) = true.
Proof. apply gtb_false_leb. Qed.

Section Comparator.
Variable key : token -> string.

Lemma key_cmp_neg (a b : token) :
  by_key key a b < 0 <-> String.leb (key a) (key b) = true.
Proof.
  unfold by_key. rewrite <- gtb_false_leb.
  destruct (Str.gtb (key a) (key b)); split; (lia || congruence).
Qed.

Lemma key_cmp_total_preorder : total_preorder (by_key key).
Proof.
  repeat split.
  - intros a b. unfold by_key. destruct (Str.gtb (key a) (key b)); lia.
  - intros a b. rewrite !key_cmp_neg. apply String.leb_total.
  - intros a b c. rewrite !key_cmp_neg. apply leb_trans.
Qed.
End Comparator.

Lemma by_name_total_preorder : total_preorder by_name.
Proof. exact (key_cmp_total_preorder name). Qed.

Lemma by_name_neg (a b : token) : by_name a b < 0 <-> name_le a b.
Proof. rewrite name_le_leb. exact (key_cmp_neg name a b). Qed.

(** *** The insertion sort meets the contract *)

Lemma insert_perm (cmp : token -> token -> Z) (x : token) (l : list token) :
  Permutation (x :: l) (insert cmp x l).
Proof.
  induction l as [| y l IH]; cbn [insert]; [reflexivity |].
  destruct (0 <? cmp y x); [reflexivity |].
  rewrite perm_swap. now apply perm_skip.
Qed.

Lemma insertion_sort_perm (cmp : token -> token -> Z) (l : list token) :
  Permutation l (insertion_sort cmp l).
Proof.
  unfold insertion_sort.
  enough (forall acc, Permutation (acc ++ l) (fold_left (fun s x => insert cmp x s) l acc))
    as H by exact (H []).
  induction l as [| x l IH]; intros acc; cbn [fold_left].
  - now rewrite app_nil_r.
  - rewrite <- IH. rewrite <- insert_perm.
    symmetry. apply Permutation_middle.
Qed.

Lemma insert_sorted (cmp : token -> token -> Z) (x : token) (l : list token) :
  total_preorder cmp ->
  StronglySorted (fun a b => cmp a b < 0) l ->
  StronglySorted (fun a b => cmp a b < 0) (insert cmp x l).
Proof.
  intros (Hnz & Htot & Htrans) Hl.
  induction Hl as [| y l Hl IH Hy]; cbn [insert].
  - repeat constructor.
  - destruct (Z.ltb_spec 0 (cmp y x)) as [Hgt | Hle].
    + assert (cmp x y < 0) as Hxy by (destruct (Htot x y); lia).
      constructor; [now constructor |].
      constructor; [exact Hxy |].
      eapply Forall_impl; [| exact Hy]. intros z Hz. now apply (Htrans x y z).
    + assert (cmp y x < 0) as Hyx by (specialize (Hnz y x); lia).
      constructor; [exact IH |].
      apply (Permutation_Forall (insert_perm cmp x l)).
      now constructor.
Qed.

Theorem insertion_sort_sorts : sorts insertion_sort.
Proof.
  intros cmp l. split; [apply insertion_sort_perm |].
  intros Hcmp. unfold insertion_sort.
  enough (forall acc, StronglySorted (fun a b => cmp a b < 0) acc ->
                      StronglySorted (fun a b => cmp a b < 0)
                        (fold_left (fun s x => insert cmp x s) l acc))
    as H by (apply H; constructor).
  induction l as [| x l IH]; intros acc Hacc; cbn [fold_left]; [exact Hacc |].
  apply IH. now apply insert_sorted.
Qed.

(** *** Two sorted arrangements of the same keys agree *)

Lemma sorted_perm_eq (l1 l2 : list string) :
  StronglySorted (fun a b => String.leb a b = true) l1 ->
  StronglySorted (fun a b => String.leb a b = true) l2 ->
  Permutation l1 l2 -> l1 = l2.
Proof.
  intros H1. revert l2.
  induction H1 as [| x l1 H1 IH Hx]; intros l2 H2 Hp.
  - now apply Permutation_nil in Hp.
  - destruct H2 as [| y l2 H2 Hy].
    + now apply Permutation_sym, Permutation_nil in Hp.
    + assert (x = y) as ->.
      { assert (In x (y :: l2)) as Hin1 by (apply (Permutation_in _ Hp); now left).
        assert (In y (x :: l1)) as Hin2
            by (apply (Permutation_in _ (Permutation_sym Hp)); now left).
        destruct Hin1 as [-> | Hin1]; [reflexivity |].
        destruct Hin2 as [-> | Hin2]; [reflexivity |].
        apply String.leb_antisym.
        - rewrite Forall_forall in Hx. now apply Hx.
        - rewrite Forall_forall in Hy. now apply Hy. }
      f_equal. apply IH; [exact H2 |]. now apply Permutation_cons_inv in Hp.
Qed.

Lemma sorted_map_name (l : list token) :
  StronglySorted name_le l ->
  StronglySorted (fun a b => String.leb a b = true) (map name l).
Proof.
  induction 1 as [| x l Hl IH Hx]; cbn [map]; constructor; [exact IH |].
  rewrite Forall_map. eapply Forall_impl; [| exact Hx].
  intros b Hb. now apply name_le_leb.
Qed.

(** With distinct keys the arrangement itself is determined. *)
Lemma perm_same_names (l1 l2 : list token) :
  Permutation l1 l2 -> map name l1 = map name l2 -> NoDup (map name l1) -> l1 = l2.
Proof.
  revert l2. induction l1 as [| x l1 IH]; intros [| y l2] Hp Hn Hd; try discriminate Hn.
  - reflexivity.
  - cbn [map] in Hn, Hd. injection Hn as Hxy Hn.
    apply NoDup_cons_iff in Hd as [Hx Hd].
    assert (x = y) as ->.
    { assert (In x (y :: l2)) as [E | Hin]
          by (apply (Permutation_in _ Hp); now left); [now symmetry |].
      exfalso. apply Hx. rewrite Hn. now apply in_map. }
    f_equal. apply IH; [now apply Permutation_cons_inv in Hp | exact Hn | exact Hd].
Qed.

Lemma sorted_by_name (sort : (token -> token -> Z) -> list token -> list token)
      (l : list token) :
  sorts sort -> StronglySorted name_le (sort by_name l).
Proof.
  intros Hsort. destruct (Hsort by_name l) as [_ H].
  specialize (H by_name_total_preorder).
  eapply StronglySorted_ind with (P := StronglySorted name_le) in H; [exact H | constructor |].
  intros a l' _ IH Ha. constructor; [exact IH |].
  eapply Forall_impl; [| exact Ha]. intros b. apply by_name_neg.
Qed.

End SortFacts.

(** ** The pipeline *)

Module BuildFacts.
Import NumFacts.

(** The describer always returns a sentence. *)
Theorem desc_ok (s : synth) : exists text, desc s = Ok text.
Proof.
  unfold desc.
  destruct (String.eqb (s_name s) "sUSD"); [eexists; reflexivity |].
  destruct (s_inverted s) as [[e u l] |].
  - destruct (doRounding_ok e u) as [up ->].
    destruct (doRounding_ok e l) as [low ->].
    eexists; reflexivity.
  - destruct (s_index s); eexists; reflexivity.
Qed.

(** A token record either becomes a token or stops the run with the
    TypeError of a missing synth. *)
Lemma make_token_cases (synths : list synth) (e : entry) :
  (exists t, make_token synths e = Ok t) \/ make_token synths e = Throw TypeError.
Proof.
  unfold make_token.
  destruct (String.eqb (e_symbol e) "SNX"); [left; eexists; reflexivity |].
  destruct (find _ synths) as [s |]; [| right; reflexivity].
  destruct (desc_ok s) as [text ->]. left; eexists; reflexivity.
Qed.

Lemma make_token_unmatched (synths : list synth) (e : entry) :
  e_symbol e <> "SNX" -> matching_synth synths e = None ->
  make_token synths e = Throw TypeError.
Proof.
  intros Hsym Hnone. unfold make_token. fold (matching_synth synths e).
  apply String.eqb_neq in Hsym. now rewrite Hsym, Hnone.
Qed.

Lemma mapM_throws (synths : list synth) (entries : list entry) (e : entry) :
  In e entries -> make_token synths e = Throw TypeError ->
  mapM (make_token synths) entries = Throw TypeError.
Proof.
  induction entries as [| x entries IH]; intros Hin He; [contradiction |].
  cbn [mapM].
  destruct (make_token_cases synths x) as [[t Ht] | Ht]; rewrite Ht; cbn [bind];
    [| reflexivity].
  destruct Hin as [-> | Hin]; [congruence |].
  now rewrite (IH Hin He).
Qed.

Lemma main_ok format snxOracle sort synths entries toks w :
  mapM (make_token synths) entries = Ok toks ->
  main format snxOracle sort synths entries w
  = (writeFileSync (content format snxOracle sort (sort by_asset toks))
       (console_log "Building tokens.md" w), Ok tt).
Proof. intros H. unfold main, tokens. now rewrite H. Qed.

Lemma main_throws format snxOracle sort synths entries err w :
  mapM (make_token synths) entries = Throw err ->
  main format snxOracle sort synths entries w
  = (console_log "Building tokens.md" w, Throw err).
Proof. intros H. unfold main, tokens. now rewrite H. Qed.

Lemma toLowerCase_append (a b : string) :
  Str.toLowerCase (a ++ b) = Str.toLowerCase a ++ Str.toLowerCase b.
Proof. induction a as [| c a IH]; simpl; [reflexivity | now rewrite IH]. Qed.

Lemma prefix_app (p u : string) : String.prefix p (p ++ u) = true.
Proof.
  induction p as [| c p IH]; simpl; [now destruct u |].
  destruct (ascii_dec c c); [exact IH | contradiction].
Qed.

Lemma strip_prefix_app (p u : string) : Str.strip_prefix p (p ++ u) = u.
Proof.
  unfold Str.strip_prefix. rewrite prefix_app.
  rewrite StrFacts.length_append.
  replace (String.length p + String.length u - String.length p)%nat
    with (String.length u) by lia.
  induction p as [| c p IH]; simpl; [| exact IH].
  clear. induction u as [| c u IH]; simpl; [reflexivity | now rewrite IH].
Qed.

Lemma prefix_inv (p s : string) :
  String.prefix p s = true -> exists rest, s = p ++ rest.
Proof.
  revert s. induction p as [| c p IH]; intros s E.
  - now exists s.
  - destruct s as [| c' s]; [discriminate E |].
    cbn [String.prefix] in E.
    destruct (ascii_dec c c') as [<- | _]; [| discriminate E].
    destruct (IH s E) as [rest ->]. now exists rest.
Qed.

End BuildFacts.

(** * The specification's claims *)

Import Str StrFacts NumFacts BuildFacts SortFacts.

(** ** The threshold calculator *)

(** The result always has as many characters after its point as
    [limit.toString()] has, and denotes the rounded value. *)
Lemma doRounding_fixed (entry limit : number) :
  let num := sub (mul entry two) limit in
  let d := fraction_width (toString limit) in
  fixed_range num ->
  exists (out : string) (n : Z),
    doRounding entry limit = Ok out
    /\ fraction_width out = d
    /\ (Qabs (value num) * ten_pow (Z.of_nat d) - (1 # 2) < inject_Z n)%Q
    /\ (inject_Z n <= Qabs (value num) * ten_pow (Z.of_nat d) + (1 # 2))%Q
    /\ (decimal_value out
        == (if is_negative num
            then - (inject_Z n / ten_pow (Z.of_nat d))
            else inject_Z n / ten_pow (Z.of_nat d)))%Q.
Proof.
  intros num d Hr.
  assert (d <= 100)%nat as Hd.
  { pose proof (decimals_of_le limit) as H. change (decimals_of limit) with d in H. lia. }
  exists ((if is_negative num then "-" else "")
          ++ fixed_layout (nearest_scaled (Qabs (value num)) d) d),
         (nearest_scaled (Qabs (value num)) d).
  destruct (nearest_scaled_spec (Qabs (value num)) d) as [Hlo Hhi].
  split; [exact (toFixed_fixed num d Hd Hr) |].
  split; [apply fraction_width_fixed_layout; now destruct (is_negative num) |].
  split; [exact Hlo |]. split; [exact Hhi |].
  apply decimal_value_fixed_layout, nearest_scaled_nonneg, Qabs_nonneg.
Qed.

(** C1, as amended.  For all Numbers [entryPoint] and [limit],
    [doRounding(entryPoint, limit)] returns a string and never throws.  Let
    [num] be the Number [entryPoint * 2 - limit].  When [num] is finite and
    below [10^21] in magnitude and [limit.toString()] has no exponent, the
    result has as many digits after its point as [limit] has fractional
    digits, [d], and denotes [n / 10^d] with the sign of [num], where [n] is
    the integer nearest to [|num| * 10^d] (the larger of two): [num] padded
    with zeros or rounded to that width. *)
Theorem doRounding_spec (entry limit : number) :
  let num := sub (mul entry two) limit in
  let d := fraction_digits limit in
  exists out : string,
    doRounding entry limit = Ok out
    /\ (fixed_range num -> no_char "e" (toString limit) = true ->
        fraction_width out = d
        /\ exists n : Z,
             (Qabs (value num) * ten_pow (Z.of_nat d) - (1 # 2) < inject_Z n)%Q
             /\ (inject_Z n <= Qabs (value num) * ten_pow (Z.of_nat d) + (1 # 2))%Q
             /\ (decimal_value out
                 == (if is_negative num
                     then - (inject_Z n / ten_pow (Z.of_nat d))
                     else inject_Z n / ten_pow (Z.of_nat d)))%Q).
Proof.
  intros num d.
  destruct (doRounding_ok entry limit) as [out Hout].
  exists out. split; [exact Hout |].
  intros Hr He.
  destruct (doRounding_fixed entry limit Hr) as (out' & n & Hout' & Hw & Hlo & Hhi & Hv).
  fold num in Hlo, Hhi, Hv.
  assert (fraction_width (toString limit) = d) as Hd by exact (decimals_positional limit He).
  rewrite Hd in Hw, Hlo, Hhi, Hv.
  assert (out' = out) as -> by congruence.
  split; [exact Hw |]. exists n. repeat split; assumption.
Qed.

Lemma doRounding_spec_witness :
  exists out : string,
    doRounding (dec 45 (-1)) (dec 225 (-2)) = Ok out
    /\ fraction_digits (dec 225 (-2)) = 2%nat
    /\ fraction_width out = 2%nat.
Proof.
  destruct (doRounding_spec (dec 45 (-1)) (dec 225 (-2))) as (out & H1 & H2).
  exists out. split; [exact H1 |].
  assert (fraction_digits (dec 225 (-2)) = 2%nat) as Hd by (vm_compute; reflexivity).
  split; [exact Hd |].
  destruct H2 as [H2 _]; [vm_compute; reflexivity | vm_compute; reflexivity |].
  rewrite H2. exact Hd.
Defined.

(** The examples of the specification. *)
Example doRounding_100_150 : doRounding (of_Z 100) (of_Z 150) = Ok "50".
Proof. vm_compute. reflexivity. Qed.

Example doRounding_4_5_2_25 : doRounding (dec 45 (-1)) (dec 225 (-2)) = Ok "6.75".
Proof. vm_compute. reflexivity. Qed.

(** Each result mirrors its own limit about the entry point; here the two
    results are not mirror images of each other. *)
Example doRounding_mirror :
  doRounding (of_Z 100) (of_Z 150) = Ok "50"
  /\ doRounding (of_Z 100) (of_Z 75) = Ok "125"
  /\ ~ (decimal_value "50" + decimal_value "125" == 2 * 100)%Q.
Proof. vm_compute. repeat split; discriminate. Qed.

(** C1, as stated, fails twice.  The literal [150.0] is the Number 150, so
    the result has no fractional digit where one is announced.  And a limit
    printed with an exponent, [1.5e-7], has eight fractional digits while
    the result has the four characters of ["5e-7"]. *)
Lemma doRounding_width_counterexample :
  (dec 1500 (-1) = of_Z 150
   /\ doRounding (of_Z 100) (dec 1500 (-1)) = Ok "50"
   /\ fraction_width "50" <> 1%nat)
  /\ (toString (dec 15 (-8)) = "1.5e-7"
      /\ doRounding (of_Z 1) (dec 15 (-8)) = Ok "2.0000"
      /\ fraction_digits (dec 15 (-8)) = 8%nat
      /\ ~ width_as_stated (of_Z 1) (dec 15 (-8))).
Proof.
  split.
  - vm_compute. repeat split; discriminate.
  - assert (doRounding (of_Z 1) (dec 15 (-8)) = Ok "2.0000") as H
        by (vm_compute; reflexivity).
    assert (fraction_digits (dec 15 (-8)) = 8%nat) as H' by (vm_compute; reflexivity).
    split; [vm_compute; reflexivity |].
    split; [exact H |]. split; [exact H' |].
    intros C. specialize (C _ H). rewrite H' in C. discriminate C.
Qed.

(** ** The describer *)

(** C2.  A record named [sUSD] is described by the fixed sentence, whatever
    its other fields hold. *)
Theorem desc_stable (s : synth) :
  s_name s = "sUSD" ->
  desc s = Ok "Tracks the price of a single US Dollar (USD). This Synth always remains constant at 1.".
Proof. intros H. unfold desc. now rewrite H. Qed.

Lemma desc_stable_witness :
  s_inverted Sample.synth_sUSD <> None
  /\ s_index Sample.synth_sUSD <> None
  /\ desc Sample.synth_sUSD
     = Ok "Tracks the price of a single US Dollar (USD). This Synth always remains constant at 1.".
Proof.
  split; [discriminate |]. split; [discriminate |].
  apply desc_stable. reflexivity.
Defined.




Example desc_inverted_index :
  desc Sample.synth_iCEX
  = Ok ("Inversely tracks the price of Centralised Exchange Index (CEX) through price feeds supplied by an oracle. "
        ++ "The entry point is \$314.1 (the approximate market price at time of creation). "
        ++ "This Synth freezes when it reaches its upper limit of \$471.1 (i.e. when Centralised Exchange Index's "
        ++ "value reaches \$157.1) or its lower limit of \$157.1 (i.e. when Centralised Exchange Index’s value "
        ++ "reaches \$471.1). If it reaches either of its limits and gets frozen, it will no longer be "
        ++ "able to be purchased on Synthetix.Exchange, but can still be traded for other Synths at its frozen "
        ++ "value. At some point after it has reached either of its limits, it will be substituted for another iCEX with different limits.").
Proof. vm_compute. reflexivity. Qed.

(** C4.  A record other than [sUSD] without inversion parameters and
    without an index composition gets the generic sentence about its
    underlying: its description without a leading ["Inverted "].  The asset
    in parentheses follows exactly when the record's name differs from the
    underlying. *)
Theorem desc_plain (s : synth) :
  s_name s <> "sUSD" -> s_inverted s = None -> s_index s = None ->
  exists underlying,
    ((exists rest, s_desc s = "Inverted " ++ rest /\ underlying = rest)
     \/ ((forall rest, s_desc s <> "Inverted " ++ rest) /\ underlying = s_desc s))
    /\ (s_name s = underlying ->
        desc s = Ok ("Tracks the price of " ++ underlying
                     ++ " through price feeds supplied by an oracle."))
    /\ (s_name s <> underlying ->
        desc s = Ok ("Tracks the price of " ++ underlying ++ (" (" ++ s_asset s ++ ")")
                     ++ " through price feeds supplied by an oracle.")).
Proof.
  intros Hn Hi Hx.
  exists (strip_prefix "Inverted " (s_desc s)).
  split.
  - destruct (String.prefix "Inverted " (s_desc s)) eqn:E.
    + left. destruct (prefix_inv _ _ E) as [rest Hr].
      exists rest. split; [exact Hr |]. rewrite Hr. apply strip_prefix_app.
    + right. split.
      * intros rest Hr. rewrite Hr, prefix_app in E. discriminate E.
      * unfold strip_prefix. now rewrite E.
  - apply String.eqb_neq in Hn. unfold desc. rewrite Hn, Hi, Hx.
    split; intros H.
    + apply String.eqb_eq in H. rewrite H. reflexivity.
    + apply String.eqb_neq in H. rewrite H. reflexivity.
Qed.

Lemma desc_plain_witness :
  desc Sample.synth_sETH
  = Ok "Tracks the price of Ether (ETH) through price feeds supplied by an oracle.".
Proof.
  pose proof (desc_plain Sample.synth_sETH ltac:(discriminate) eq_refl eq_refl)
    as (u & Hu & _ & H).
  destruct Hu as [(rest & Hd & Hu) | (Hd & Hu)]; [discriminate Hd |].
  subst u. apply H. discriminate.
Defined.

(** ** The page assembler *)

(** C5.  The index block is present exactly when the record has an index
    composition.  For an inverted record it is the "Index of" link line
    alone; otherwise the table of the components follows the link line. *)
Theorem index_block (format : number -> string) (t : token) :
  let header :=
    "**Index of**: [s" ++ asset t ++ "](#" ++ getLinkToAsset (name t) (asset t) ++ ")"
    ++ nl ++ nl in
  (addIndexParameters format t <> "" <-> index t <> None)
  /\ (forall ix, index t = Some ix ->
        (inverted t <> None -> addIndexParameters format t = header)
        /\ (inverted t = None ->
            addIndexParameters format t
            = header ++ "| Token | Symbol | Units |" ++ nl ++ "| - | - | - |" ++ nl
              ++ index_rows format ix ++ nl)).
Proof.
  intros header. unfold addIndexParameters. fold header.
  assert (forall rest, header ++ rest <> "") as Hne by (intros rest; discriminate).
  destruct (index t) as [ix |]; (split; [split |]).
  - discriminate.
  - intros _. destruct (inverted t); [| apply Hne].
    rewrite <- (append_nil_r header). apply Hne.
  - intros ix' E. injection E as <-.
    destruct (inverted t); split; intros H; try reflexivity; congruence.
  - intros H. now contradiction H.
  - intros H. now contradiction H.
  - discriminate.
Qed.

Lemma index_block_witness :
  addIndexParameters toString Sample.token_sCEX
  = "**Index of**: [sCEX](#exchange-index-scex)" ++ nl ++ nl
    ++ "| Token | Symbol | Units |" ++ nl ++ "| - | - | - |" ++ nl
    ++ "| Binance Coin | BNB | 61.48 |" ++ nl
    ++ "| XRP | XRP | 1000 |" ++ nl ++ nl.
Proof.
  destruct (index_block toString Sample.token_sCEX) as [_ H].
  destruct (H Sample.basket eq_refl) as [_ H'].
  rewrite (H' eq_refl). vm_compute. reflexivity.
Defined.

Lemma lookup_absent (key : string) (props : list (string * string)) :
  ~ In key (map fst props) -> lookup key props = None.
Proof.
  induction props as [| [k v] props IH]; cbn [lookup map fst In]; intros H; [reflexivity |].
  destruct (String.eqb_spec k key) as [E | E]; [tauto |].
  apply IH. tauto.
Qed.

(** The oracle block for every asset that is not the name of an inherited
    property. *)
Lemma oracle_block_spec (snxOracle : string) (t : token) :
  (truthy (feed t) = false -> addOracleParameters snxOracle t = centralized_block snxOracle)
  /\ (forall f, feed t = Some f -> f <> "" ->
        addOracleParameters snxOracle t <> centralized_block snxOracle
        /\ (~ inherited (asset t) ->
            addOracleParameters snxOracle t
            = decentralized_block (slug_as_stated (asset t)) f)).
Proof.
  unfold addOracleParameters. split.
  - intros ->. reflexivity.
  - intros f -> Hf.
    assert (truthy (Some f) = true) as -> by (destruct f; [contradiction | reflexivity]).
    cbn [negb]. split; [discriminate |].
    intros Hin. unfold get_property, slug_as_stated, linkMap. cbn [lookup].
    rewrite (String.eqb_sym "FTSE100"), (String.eqb_sym "NIKKEI225").
    destruct (String.eqb (asset t) "FTSE100"); [reflexivity |].
    destruct (String.eqb (asset t) "NIKKEI225"); [reflexivity |].
    now rewrite (lookup_absent _ _ Hin).
Qed.

(** C6, at an asset named like an inherited property: the block links to
    the text of a function, not to [constructor-usd]. *)
Theorem oracle_block_inherited_key :
  addOracleParameters Sample.oracle Sample.token_constructor
  = decentralized_block "function Object() { [native code] }"
      "0xF5fff180082d6017036B771bA883025c654BC935"
  /\ slug_as_stated "constructor" = "constructor-usd"
  /\ addOracleParameters Sample.oracle Sample.token_constructor
     <> decentralized_block (slug_as_stated "constructor")
          "0xF5fff180082d6017036B771bA883025c654BC935".
Proof. vm_compute. repeat split; discriminate. Qed.

Example oracle_block_samples :
  addOracleParameters Sample.oracle
    {| name := "Bitcoin"; description := ""; symbol := "sBTC"; asset := "BTC";
       address := ""; decimals := of_Z 18; index := None; inverted := None;
       feed := Some "0xF5fff180082d6017036B771bA883025c654BC935" |}
  = decentralized_block "btc-usd" "0xF5fff180082d6017036B771bA883025c654BC935"
  /\ addOracleParameters Sample.oracle
       {| name := "FTSE 100 Index"; description := ""; symbol := "sFTSE"; asset := "FTSE100";
          address := ""; decimals := of_Z 18; index := None; inverted := None;
          feed := Some "0x16924ae9C2ac6cdbC9D6bB16FAfCD38BeD560936" |}
     = decentralized_block "ftse-gbp" "0x16924ae9C2ac6cdbC9D6bB16FAfCD38BeD560936".
Proof. vm_compute. split; reflexivity. Qed.

(** C7, as amended.  The anchor is the display name without its first
    space-delimited token, joined with hyphens, followed by [-s<asset>], all
    of it in lower case: the asset ticker is lower-cased as well. *)
Theorem getLinkToAsset_spec (name asset : string) :
  getLinkToAsset name asset
  = toLowerCase (join "-" (tl (split space name))) ++ "-s" ++ toLowerCase asset.
Proof. unfold getLinkToAsset. now rewrite !toLowerCase_append. Qed.

(** C7, as stated, keeps the ticker's capitals. *)
Lemma anchor_counterexample :
  getLinkToAsset "Inverted Bitcoin" "BTC" = "bitcoin-sbtc"
  /\ anchor_as_stated "Inverted Bitcoin" "BTC" = "bitcoin-sBTC"
  /\ getLinkToAsset "Inverted Bitcoin" "BTC" <> anchor_as_stated "Inverted Bitcoin" "BTC".
Proof. vm_compute. repeat split; discriminate. Qed.

(** C8, as amended.  With a sort that meets its contract, the sections of
    the written document are the tokens, each once, in ascending order of
    display name: the name of a section is not greater than the name of any
    later one.  The sort by asset does not affect the sequence of the
    names, which is the one sorting the unsorted token list by name gives,
    and it does not affect the order of the sections when the names are
    distinct. *)
Theorem sections_in_name_order
    (format : number -> string) (snxOracle : string)
    (sort : (token -> token -> Z) -> list token -> list token)
    (synths : list synth) (entries : list entry) (toks : list token) (w : world) :
  sorts sort ->
  mapM (make_token synths) entries = Ok toks ->
  exists secs,
    main format snxOracle sort synths entries w
    = (writeFileSync (document format snxOracle secs)
         (console_log "Building tokens.md" w), Ok tt)
    /\ Permutation toks secs
    /\ StronglySorted name_le secs
    /\ map name secs = map name (sort by_name toks)
    /\ (NoDup (map name toks) -> secs = sort by_name toks).
Proof.
  intros Hsort Htoks.
  exists (sort by_name (sort by_asset toks)).
  assert (Permutation toks (sort by_name (sort by_asset toks))) as Hp.
  { transitivity (sort by_asset toks); apply Hsort. }
  assert (Permutation (sort by_name (sort by_asset toks)) (sort by_name toks)) as Hp'.
  { rewrite <- Hp. apply Hsort. }
  assert (map name (sort by_name (sort by_asset toks)) = map name (sort by_name toks)) as Hn.
  { apply sorted_perm_eq.
    - now apply sorted_map_name, sorted_by_name.
    - now apply sorted_map_name, sorted_by_name.
    - now apply Permutation_map. }
  split; [exact (main_ok _ _ _ _ _ _ _ Htoks) |].
  split; [exact Hp |].
  split; [now apply sorted_by_name |].
  split; [exact Hn |].
  intros Hd. apply perm_same_names; [exact Hp' | exact Hn |].
  apply (Permutation_NoDup (l := map name toks)); [| exact Hd].
  now apply Permutation_map.
Qed.

Lemma sections_in_name_order_witness :
  exists secs,
    main toString Sample.oracle insertion_sort
      [Sample.synth_sBTC; Sample.synth_iBTC] [Sample.SNX; Sample.iBTC; Sample.sBTC]
      Sample.empty_world
    = (writeFileSync (document toString Sample.oracle secs)
         (console_log "Building tokens.md" Sample.empty_world), Ok tt)
    /\ map name secs = ["Bitcoin"; "Inverted Bitcoin"; "Synthetix"].
Proof.
  eassert (mapM (make_token [Sample.synth_sBTC; Sample.synth_iBTC])
             [Sample.SNX; Sample.iBTC; Sample.sBTC] = Ok _) as Ht
      by (vm_compute; reflexivity).
  destruct (sections_in_name_order toString Sample.oracle insertion_sort _ _ _
              Sample.empty_world insertion_sort_sorts Ht) as (secs & Hm & _ & _ & Hn & _).
  exists secs. split; [exact Hm |].
  rewrite Hn. vm_compute. reflexivity.
Defined.

(** C8, as stated, fails for sections of the same display name: their
    order is the one the sort by asset left.  With the insertion sort the
    two records named Twin are written in the order of their asset tickers,
    [sBBB] before [sAAA], while sorting the tokens by name alone keeps
    [sAAA] before [sBBB]. *)
Lemma asset_sort_counterexample :
  sorts insertion_sort
  /\ (exists secs,
        main toString Sample.oracle insertion_sort Twins.synths Twins.entries
          Sample.empty_world
        = (writeFileSync (document toString Sample.oracle secs)
             (console_log "Building tokens.md" Sample.empty_world), Ok tt)
        /\ map name secs = ["Twin"; "Twin"]
        /\ map symbol secs = ["sBBB"; "sAAA"])
  /\ (exists toks,
        mapM (make_token Twins.synths) Twins.entries = Ok toks
        /\ map symbol (sections insertion_sort toks) = ["sAAA"; "sBBB"]
        /\ ~ asset_sort_irrelevant insertion_sort toks).
Proof.
  eassert (mapM (make_token Twins.synths) Twins.entries = Ok _) as Ht
      by (vm_compute; reflexivity).
  split; [exact insertion_sort_sorts |].
  match type of Ht with
  | _ = Ok ?l =>
      split;
      [ exists (insertion_sort by_name (insertion_sort by_asset l))
      | exists l ]
  end.
  - split; [exact (main_ok _ _ _ _ _ _ Sample.empty_world Ht) |].
    vm_compute. split; reflexivity.
  - split; [exact Ht |]. split; [vm_compute; reflexivity |].
    intros C. unfold asset_sort_irrelevant in C.
    apply (f_equal (map symbol)) in C. vm_compute in C. discriminate C.
Qed.

(** ** Failures *)

(** C9, as amended.  When a token record other than SNX has no synth of its
    symbol, the run throws a TypeError while the descriptions are made, and
    the output file is left as it was. *)
Theorem unmatched_token_aborts
    (format : number -> string) (snxOracle : string)
    (sort : (token -> token -> Z) -> list token -> list token)
    (synths : list synth) (entries : list entry) (e : entry) :
  In e entries -> e_symbol e <> "SNX" -> matching_synth synths e = None ->
  aborts_unwritten format snxOracle sort synths entries.
Proof.
  intros Hin Hsym Hnone w.
  rewrite (main_throws _ _ _ _ _ TypeError).
  - split; reflexivity.
  - apply (mapM_throws _ _ e Hin). now apply make_token_unmatched.
Qed.

Lemma unmatched_token_aborts_witness :
  aborts_unwritten toString Sample.oracle insertion_sort
    [Sample.synth_sBTC] [Sample.SNX; Sample.sBTC; Sample.iBTC].
Proof.
  apply (unmatched_token_aborts _ _ _ _ _ Sample.iBTC).
  - right. right. left. reflexivity.
  - discriminate.
  - reflexivity.
Defined.

(** C9, as stated, fails for the SNX token, which never has a synth: the
    run completes and writes the file. *)
Lemma fail_fast_counterexample :
  matching_synth [] Sample.SNX = None
  /\ snd (main toString Sample.oracle insertion_sort [] [Sample.SNX] Sample.empty_world)
     = Ok tt
  /\ list_md (fst (main toString Sample.oracle insertion_sort [] [Sample.SNX]
                     Sample.empty_world)) <> None
  /\ ~ fail_fast_as_stated toString Sample.oracle insertion_sort [] [Sample.SNX].
Proof.
  assert (snd (main toString Sample.oracle insertion_sort [] [Sample.SNX] Sample.empty_world)
          = Ok tt) as H by (vm_compute; reflexivity).
  split; [reflexivity |]. split; [exact H |]. split; [vm_compute; discriminate |].
  intros C.
  destruct (C (ex_intro _ Sample.SNX (conj (or_introl eq_refl) eq_refl)) Sample.empty_world)
    as [C' _].
  rewrite H in C'. discriminate C'.
Qed.

(** C10.  A token record with the symbol SNX gets the fixed description,
    whatever the synth registry holds: making its token never throws. *)
Theorem SNX_token_description (synths : list synth) (e : entry) :
  e_symbol e = "SNX" ->
  exists t,
    make_token synths e = Ok t
    /\ description t
       = "The Synthetix Network Token (SNX) gets staked as collateral to back Synths and entitles stakers to receive fees generated by Synth trades on Synthetix.Exchange."
    /\ forall synths', make_token synths' e = Ok t.
Proof.
  intros H. unfold make_token. rewrite H. cbn.
  eexists. split; [reflexivity |]. split; [reflexivity |].
  intros synths'. reflexivity.
Qed.

Lemma SNX_token_description_witness :
  matching_synth [] Sample.SNX = None
  /\ exists t, make_token [] Sample.SNX = Ok t
               /\ forall synths', make_token synths' Sample.SNX = Ok t.
Proof.
  split; [reflexivity |].
  destruct (SNX_token_description [] Sample.SNX eq_refl) as (t & Ht & _ & Hall).
  exists t. split; [exact Ht | exact Hall].
Defined.

(** * Further properties of the script *)

(** ** The anchor *)

Lemma split_cons (c : ascii) (s : string) : exists h t, split c s = h :: t.
Proof.
  destruct s as [| x s]; cbn [split]; [now eexists; eexists |].
  destruct (Ascii.eqb x c); [now eexists; eexists |].
  destruct (split c s); now eexists; eexists.
Qed.

(** Splitting at the spaces and joining with hyphens turns each space into a
    hyphen. *)
Lemma join_split_hyphenate (s : string) : join "-" (split space s) = hyphenate s.
Proof.
  induction s as [| c s IH]; [reflexivity |].
  cbn [split hyphenate].
  destruct (split_cons space s) as (h & t & E). rewrite E in *.
  destruct (Ascii.eqb c space).
  - change (join "-" ("" :: h :: t)) with ("" ++ "-" ++ join "-" (h :: t)).
    now rewrite IH.
  - rewrite <- IH. destruct t; reflexivity.
Qed.

(** X1.  For a display name with a space, the anchor is what follows the
    first space, with the further spaces turned into hyphens, then
    [-s<asset>], all in lower case. *)
Theorem getLinkToAsset_after_first_space (first rest asset : string) :
  no_char space first = true ->
  getLinkToAsset (first ++ String space rest) asset
  = toLowerCase (hyphenate rest) ++ "-s" ++ toLowerCase asset.
Proof.
  intros H. unfold getLinkToAsset.
  rewrite (split_at_sep space first rest H). cbn [tl].
  now rewrite join_split_hyphenate, !toLowerCase_append.
Qed.

Lemma getLinkToAsset_after_first_space_witness :
  getLinkToAsset "Inverted Binance Coin" "BNB" = "binance-coin-sbnb".
Proof.
  exact (getLinkToAsset_after_first_space "Inverted" "Binance Coin" "BNB" eq_refl).
Defined.

(** X2.  For a display name of one word nothing of the name is left: the
    anchor is [-s<asset>] in lower case. *)
Theorem getLinkToAsset_one_word (name asset : string) :
  no_char space name = true ->
  getLinkToAsset name asset = "-s" ++ toLowerCase asset.
Proof.
  intros H. unfold getLinkToAsset.
  rewrite (split_no_sep space name H). cbn [tl join].
  now rewrite toLowerCase_append.
Qed.

Lemma getLinkToAsset_one_word_witness : getLinkToAsset "Bitcoin" "BTC" = "-sbtc".
Proof. exact (getLinkToAsset_one_word "Bitcoin" "BTC" eq_refl). Defined.

Lemma lower_char_cases (c : ascii) :
  (is_upper c = false /\ lower_char c = c)
  \/ (is_upper c = true /\ nat_of_ascii (lower_char c) = (nat_of_ascii c + 32)%nat).
Proof.
  unfold lower_char, is_upper.
  destruct ((65 <=? nat_of_ascii c)%nat && (nat_of_ascii c <=? 90)%nat) eqn:E.
  - right. split; [reflexivity |].
    apply andb_true_iff in E as [_ E]. apply Nat.leb_le in E.
    apply nat_ascii_embedding. lia.
  - now left.
Qed.

Lemma no_upper_toLowerCase (s : string) : no_upper (toLowerCase s) = true.
Proof.
  induction s as [| c s IH]; [reflexivity |].
  cbn [toLowerCase no_upper]. rewrite IH, andb_true_r.
  destruct (lower_char_cases c) as [[H ->] | [H E]]; [now rewrite H |].
  unfold is_upper in *. rewrite E.
  apply andb_true_iff in H as [H _]. apply Nat.leb_le in H.
  apply negb_true_iff, andb_false_iff. right. apply Nat.leb_gt. lia.
Qed.

Lemma no_space_toLowerCase (s : string) :
  no_char space s = true -> no_char space (toLowerCase s) = true.
Proof.
  induction s as [| c s IH]; [reflexivity |].
  cbn [toLowerCase no_char]. intros H.
  apply andb_true_iff in H as [Hc Hs]. rewrite (IH Hs), andb_true_r.
  destruct (lower_char_cases c) as [[_ ->] | [H E]]; [exact Hc |].
  apply negb_true_iff, Ascii.eqb_neq. intros Heq. rewrite Heq in E.
  change (nat_of_ascii space) with 32%nat in E.
  unfold is_upper in H. apply andb_true_iff in H as [H _]. apply Nat.leb_le in H. lia.
Qed.

Lemma no_space_hyphenate (s : string) : no_char space (hyphenate s) = true.
Proof.
  induction s as [| c s IH]; [reflexivity |].
  cbn [hyphenate no_char]. rewrite IH, andb_true_r.
  destruct (Ascii.eqb c space) eqn:E; [reflexivity |].
  now rewrite E.
Qed.

(** A string has no space, or a first one. *)
Lemma first_space (s : string) :
  no_char space s = true
  \/ exists first rest, s = first ++ String space rest /\ no_char space first = true.
Proof.
  induction s as [| c s IH]; [now left |].
  cbn [no_char]. destruct (Ascii.eqb_spec c space) as [-> | Hc].
  - right. exists "", s. split; reflexivity.
  - destruct IH as [IH | (first & rest & -> & Hf)].
    + left. now rewrite IH.
    + right. exists (String c first), rest. split; [reflexivity |].
      cbn [no_char]. rewrite Hf, andb_true_r.
      now apply negb_true_iff, Ascii.eqb_neq.
Qed.

(** X3.  The anchor never has a capital letter, and it has no space unless
    the asset ticker has one. *)
Theorem getLinkToAsset_slug (name asset : string) :
  no_upper (getLinkToAsset name asset) = true
  /\ (no_char space asset = true -> no_char space (getLinkToAsset name asset) = true).
Proof.
  unfold getLinkToAsset. split; [apply no_upper_toLowerCase |].
  intros H. apply no_space_toLowerCase.
  rewrite !no_char_append, H, andb_true_r.
  destruct (first_space name) as [Hn | (first & rest & -> & Hf)].
  - now rewrite (split_no_sep space name Hn).
  - rewrite (split_at_sep space first rest Hf). cbn [tl].
    now rewrite join_split_hyphenate, no_space_hyphenate.
Qed.

Lemma getLinkToAsset_slug_witness :
  no_char space (getLinkToAsset "Inverted Binance Coin" "BNB") = true.
Proof. apply (getLinkToAsset_slug "Inverted Binance Coin" "BNB"). reflexivity. Defined.

(** ** The oracle block *)

Lemma append_inv_head (p a b : string) : p ++ a = p ++ b -> a = b.
Proof.
  induction p as [| c p IH]; cbn [append]; intros H; [exact H |].
  injection H as H. now apply IH.
Qed.

(** X4.  The block is the centralized one exactly when the feed address is
    absent or empty.  With a feed address, the block is the decentralized
    one with the documented slug exactly when the asset ticker is not the
    name of a property that object literals inherit. *)
Theorem oracle_block_cases (snxOracle : string) (t : token) :
  (addOracleParameters snxOracle t = centralized_block snxOracle
   <-> truthy (feed t) = false)
  /\ (forall f, feed t = Some f -> f <> "" ->
        (addOracleParameters snxOracle t
         = decentralized_block (slug_as_stated (asset t)) f
         <-> ~ inherited (asset t))).
Proof.
  destruct (oracle_block_spec snxOracle t) as [Hc Hd]. split.
  - split; [| exact Hc].
    intros H. destruct (feed t) as [[| c f] |] eqn:Hf; try reflexivity.
    destruct (Hd (String c f) eq_refl ltac:(discriminate)) as [Hne _].
    contradiction.
  - intros f Hf Hnz. destruct (Hd f Hf Hnz) as [_ Hs]. split; [| exact Hs].
    intros Heq Hin.
    unfold addOracleParameters, decentralized_block in Heq. rewrite Hf in Heq.
    destruct f as [| c f]; [contradiction |]. cbn [truthy negb] in Heq.
    do 4 apply append_inv_head in Heq.
    unfold inherited in Hin. cbn [map fst Object_prototype In] in Hin.
    repeat (destruct Hin as [Hin | Hin]); try contradiction;
      rewrite <- Hin in Heq; vm_compute in Heq; discriminate Heq.
Qed.

Lemma oracle_block_cases_witness :
  addOracleParameters Sample.oracle Sample.token_constructor
  <> decentralized_block "constructor-usd" "0xF5fff180082d6017036B771bA883025c654BC935".
Proof.
  destruct (oracle_block_cases Sample.oracle Sample.token_constructor) as [_ H].
  intros Heq.
  apply (H "0xF5fff180082d6017036B771bA883025c654BC935" eq_refl ltac:(discriminate)) in Heq.
  apply Heq. left. reflexivity.
Defined.

(** ** The threshold calculator *)

(** X5.  When the computed Number [entryPoint * 2 - limit] is NaN, infinite
    or at least [10^21] in magnitude, the result is its [toString] text
    ([NaN], [Infinity], or a numeral with an exponent), whatever the digits
    of [limit]. *)
Theorem doRounding_out_of_range (entry limit : number) :
  ~ fixed_range (sub (mul entry two) limit) ->
  doRounding entry limit = Ok (toString (sub (mul entry two) limit)).
Proof.
  intros H. unfold doRounding, toFixed.
  pose proof (decimals_of_le limit) as Hd.
  destruct (Nat.ltb_spec 100 (decimals_of limit)); [lia |].
  destruct (sub (mul entry two) limit) as [s | s | | s m e] eqn:E; try reflexivity.
  - exfalso. apply H. reflexivity.
  - destruct (Qle_bool (ten_pow 21) (Qabs (value (S754_finite s m e)))) eqn:B;
      [reflexivity |].
    exfalso. apply H. cbn [fixed_range].
    apply Qnot_le_lt. intros Hle. apply Qle_bool_iff in Hle. congruence.
Qed.

Lemma doRounding_out_of_range_witness :
  doRounding (of_Z (10 ^ 21)) (of_Z 150) = Ok "2e+21"
  /\ doRounding S754_nan (dec 15 (-1)) = Ok "NaN".
Proof.
  split.
  - rewrite doRounding_out_of_range; vm_compute; [reflexivity | discriminate].
  - rewrite doRounding_out_of_range; vm_compute; [reflexivity | tauto].
Defined.

(** X6.  Nothing is clamped: when the computed Number is finite and below
    [10^21] in magnitude, the result starts with a minus sign exactly when
    that Number is negative, also when it rounds to zero. *)
Theorem doRounding_sign (entry limit : number) :
  fixed_range (sub (mul entry two) limit) ->
  exists out,
    doRounding entry limit = Ok out
    /\ (String.prefix "-" out = true
        <-> is_negative (sub (mul entry two) limit) = true).
Proof.
  intros Hr. unfold doRounding.
  assert (decimals_of limit <= 100)%nat as Hd
      by (pose proof (decimals_of_le limit); lia).
  rewrite (toFixed_fixed _ _ Hd Hr). eexists. split; [reflexivity |].
  destruct (is_negative (sub (mul entry two) limit)).
  - split; [reflexivity |]. intros _. apply (prefix_app "-").
  - destruct (fixed_layout_first
                (nearest_scaled (Qabs (value (sub (mul entry two) limit))) (decimals_of limit))
                (decimals_of limit)) as (c & rest & -> & Hc).
    cbn [append String.prefix].
    destruct (ascii_dec "-" c) as [<- | _]; [contradiction |].
    split; discriminate.
Qed.

Lemma doRounding_sign_witness :
  doRounding (dec 4 (-2)) (dec 1 (-1)) = Ok "-0.0"
  /\ is_negative (sub (mul (dec 4 (-2)) two) (dec 1 (-1))) = true.
Proof.
  destruct (doRounding_sign (dec 4 (-2)) (dec 1 (-1))) as (out & Hout & Hs);
    [vm_compute; reflexivity |].
  split; [vm_compute; reflexivity |].
  apply Hs. assert (out = "-0.0") as -> by (vm_compute in Hout; congruence).
  reflexivity.
Defined.

(** ** The inverse block *)

(** X7.  The inverse block is present exactly when the token has inversion
    parameters, with or without an index.  It is a link whose text keeps the
    ticker's capitals and whose target is the lower-case anchor, over one
    table row with the formatted entry point, upper limit and lower limit in
    this order. *)
Theorem inverse_block (format : number -> string) (t : token) :
  (addInverseParameters format t <> "" <-> inverted t <> None)
  /\ (forall p, inverted t = Some p ->
        addInverseParameters format t
        = "**Inverse of**: [s" ++ asset t ++ "](#"
          ++ (toLowerCase (join "-" (tl (split space (name t))))
              ++ "-s" ++ toLowerCase (asset t))
          ++ ")" ++ nl ++ nl
          ++ "| Entry Point | Upper Limit | Lower Limit |" ++ nl
          ++ "| - | - | - |" ++ nl
          ++ "| $" ++ format (entryPoint p) ++ " | $" ++ format (upperLimit p)
          ++ " | $" ++ format (lowerLimit p) ++ "|" ++ nl ++ nl).
Proof.
  unfold addInverseParameters, getLinkToAsset.
  rewrite !toLowerCase_append.
  destruct (inverted t) as [p |]; split.
  - split; discriminate.
  - intros p' E. injection E as <-. reflexivity.
  - split; intros H; now contradiction H.
  - discriminate.
Qed.

Lemma inverse_block_witness :
  addInverseParameters toString
    {| name := "Inverted Bitcoin"; description := ""; symbol := "iBTC"; asset := "BTC";
       address := ""; decimals := of_Z 18; index := None;
       inverted := Some Sample.iBTC_limits; feed := None |}
  = "**Inverse of**: [sBTC](#bitcoin-sbtc)" ++ nl ++ nl
    ++ "| Entry Point | Upper Limit | Lower Limit |" ++ nl
    ++ "| - | - | - |" ++ nl
    ++ "| $10600 | $15900 | $5300|" ++ nl ++ nl.
Proof.
  match goal with
  | |- addInverseParameters ?f ?t = _ =>
      destruct (inverse_block f t) as [_ H]; rewrite (H Sample.iBTC_limits eq_refl)
  end.
  vm_compute. reflexivity.
Defined.

(** ** The comparators *)

Lemma compare_refl (s : string) : String.compare s s = Eq.
Proof.
  pose proof (String.compare_antisym s s) as H.
  destruct (String.compare s s); (reflexivity || discriminate H).
Qed.

Lemma by_key_answers (key : token -> string) (a b : token) :
  (by_key key a b = 1 \/ by_key key a b = -1)
  /\ (key a = key b -> by_key key a b = -1 /\ by_key key b a = -1)
  /\ (key a <> key b -> by_key key a b + by_key key b a = 0).
Proof.
  unfold by_key, gtb, String.ltb.
  split; [destruct (String.compare (key b) (key a)); auto |].
  split.
  - intros ->. now rewrite compare_refl.
  - intros Hne. rewrite (String.compare_antisym (key a) (key b)).
    destruct (String.compare (key b) (key a)) eqn:E; try reflexivity.
    apply String.compare_eq_iff in E. congruence.
Qed.

(** X8.  The comparators of both sorts answer 1 or -1 and never 0.  For two
    tokens with the same key they answer -1 in both directions, so they are
    not consistent comparison functions; for different keys the two
    directions are opposite. *)
Theorem comparators_never_zero (a b : token) :
  ((by_name a b = 1 \/ by_name a b = -1)
   /\ (name a = name b -> by_name a b = -1 /\ by_name b a = -1)
   /\ (name a <> name b -> by_name a b + by_name b a = 0))
  /\ ((by_asset a b = 1 \/ by_asset a b = -1)
      /\ (asset a = asset b -> by_asset a b = -1 /\ by_asset b a = -1)
      /\ (asset a <> asset b -> by_asset a b + by_asset b a = 0)).
Proof. split; [exact (by_key_answers name a b) | exact (by_key_answers asset a b)]. Qed.

Lemma comparators_never_zero_witness :
  let sBTC :=
    {| name := "Bitcoin"; description := ""; symbol := "sBTC"; asset := "BTC";
       address := ""; decimals := of_Z 18; index := None; inverted := None; feed := None |} in
  let iBTC :=
    {| name := "Inverted Bitcoin"; description := ""; symbol := "iBTC"; asset := "BTC";
       address := ""; decimals := of_Z 18; index := None;
       inverted := Some Sample.iBTC_limits; feed := None |} in
  by_asset sBTC iBTC = -1 /\ by_asset iBTC sBTC = -1
  /\ by_name sBTC iBTC + by_name iBTC sBTC = 0.
Proof.
  intros sBTC iBTC.
  destruct (comparators_never_zero sBTC iBTC) as [(_ & _ & Hn) (_ & Ha & _)].
  destruct (Ha eq_refl) as [H1 H2].
  split; [exact H1 |]. split; [exact H2 |].
  apply Hn. discriminate.
Defined.

(** ** The token list *)




Lemma make_token_ok_iff (synths : list synth) (e : entry) :
  (exists t, make_token synths e = Ok t)
  <-> (e_symbol e = "SNX" \/ matching_synth synths e <> None).
Proof.
  split.
  - intros [t Ht].
    destruct (String.eqb_spec (e_symbol e) "SNX") as [E | E]; [now left |].
    right. intros Hnone. rewrite (make_token_unmatched _ _ E Hnone) in Ht. discriminate Ht.
  - intros H. destruct (make_token_cases synths e) as [Hok | Hthrow]; [exact Hok |].
    exfalso. unfold make_token in Hthrow. fold (matching_synth synths e) in Hthrow.
    destruct H as [H | H].
    + rewrite H in Hthrow. discriminate Hthrow.
    + destruct (String.eqb (e_symbol e) "SNX"); [discriminate Hthrow |].
      destruct (matching_synth synths e) as [s |]; [| now apply H].
      destruct (desc_ok s) as [text Ht]. rewrite Ht in Hthrow. discriminate Hthrow.
Qed.

Lemma mapM_ok_iff (synths : list synth) (entries : list entry) :
  (exists toks, mapM (make_token synths) entries = Ok toks)
  <-> all_matched synths entries.
Proof.
  unfold all_matched. induction entries as [| e entries IH]; cbn [mapM].
  - split; [intros _ e [] | intros _; now eexists].
  - split.
    + intros [toks H] x [<- | Hin].
      * apply make_token_ok_iff.
        destruct (make_token synths e) as [t |]; [now eexists | discriminate H].
      * apply IH; [| exact Hin].
        destruct (make_token synths e) as [t |]; [| discriminate H]. cbn [bind] in H.
        destruct (mapM (make_token synths) entries) as [l |]; [now eexists | discriminate H].
    + intros H.
      destruct (proj2 (make_token_ok_iff synths e) (H e (or_introl eq_refl))) as [t ->].
      destruct (proj2 IH (fun x Hx => H x (or_intror Hx))) as [l ->].
      now eexists.
Qed.

Lemma mapM_cases (synths : list synth) (entries : list entry) :
  (exists toks, mapM (make_token synths) entries = Ok toks)
  \/ mapM (make_token synths) entries = Throw TypeError.
Proof.
  induction entries as [| e entries IH]; cbn [mapM]; [left; now eexists |].
  destruct (make_token_cases synths e) as [[t ->] | ->]; [| now right].
  cbn [bind]. destruct IH as [[l ->] | ->]; [left; now eexists | now right].
Qed.

(** X10.  The run completes exactly when every token record is the SNX token
    or has a synth of its symbol.  Its only failure is the TypeError: the
    RangeError of [toFixed] cannot arise.  The output file is written when
    the run completes and is left as it was when it fails. *)
Theorem main_outcome
    (format : number -> string) (snxOracle : string)
    (sort : (token -> token -> Z) -> list token -> list token)
    (synths : list synth) (entries : list entry) (w : world) :
  let run := main format snxOracle sort synths entries w in
  (snd run = Ok tt <-> all_matched synths entries)
  /\ (snd run = Ok tt \/ snd run = Throw TypeError)
  /\ (snd run = Ok tt -> exists doc, list_md (fst run) = Some doc)
  /\ (snd run = Throw TypeError -> list_md (fst run) = list_md w).
Proof.
  intros run. unfold run.
  destruct (mapM_cases synths entries) as [[toks H] | H].
  - rewrite (main_ok _ _ _ _ _ _ _ H). cbn [fst snd].
    repeat split; auto.
    + intros _. apply mapM_ok_iff. now exists toks.
    + intros _. now eexists.
    + discriminate.
  - rewrite (main_throws _ _ _ _ _ _ _ H). cbn [fst snd].
    repeat split; auto; try discriminate.
    intros Hall. apply mapM_ok_iff in Hall as [toks Ht]. congruence.
Qed.

Lemma mapM_from_entry (synths : list synth) (entries : list entry) :
  forall toks,
    mapM (make_token synths) entries = Ok toks ->
    Forall2
      (fun e t =>
         from_entry e t
         /\ ((e_symbol e = "SNX" /\ description t = SNX_description)
             \/ (e_symbol e <> "SNX"
                 /\ exists s, matching_synth synths e = Some s
                              /\ desc s = Ok (description t))))
      entries toks.
Proof.
  induction entries as [| e entries IH]; cbn [mapM]; intros toks H.
  - injection H as <-. constructor.
  - destruct (make_token synths e) as [t |] eqn:Et; [| discriminate H]. cbn [bind] in H.
    destruct (mapM (make_token synths) entries) as [l |]; [| discriminate H].
    injection H as <-. constructor; [| now apply IH].
    unfold make_token in Et. fold (matching_synth synths e) in Et.
    destruct (String.eqb_spec (e_symbol e) "SNX") as [E | E].
    + injection Et as <-. split; [repeat split | left; now split].
    + destruct (matching_synth synths e) as [s |]; [| discriminate Et].
      destruct (desc s) as [text |] eqn:Ed; [| discriminate Et].
      injection Et as <-. split; [repeat split |].
      right. split; [exact E |]. now exists s.
Qed.

(** X11.  With a sort that meets its contract, the sections of the written
    document show the token records one to one: their symbols are those of
    the records, each as often; every section carries the fields of one
    record, and its description is the fixed one for SNX and otherwise the
    sentence [desc] gives for the first synth of the record's symbol. *)
Theorem sections_show_records
    (format : number -> string) (snxOracle : string)
    (sort : (token -> token -> Z) -> list token -> list token)
    (synths : list synth) (entries : list entry) (w : world) :
  sorts sort ->
  all_matched synths entries ->
  exists secs,
    main format snxOracle sort synths entries w
    = (writeFileSync (document format snxOracle secs)
         (console_log "Building tokens.md" w), Ok tt)
    /\ Permutation (map e_symbol entries) (map symbol secs)
    /\ Forall
         (fun t =>
            exists e, In e entries /\ from_entry e t
                      /\ ((e_symbol e = "SNX" /\ description t = SNX_description)
                          \/ (e_symbol e <> "SNX"
                              /\ exists s, matching_synth synths e = Some s
                                           /\ desc s = Ok (description t))))
         secs.
Proof.
  intros Hsort Hall.
  apply mapM_ok_iff in Hall as [toks Ht].
  exists (sort by_name (sort by_asset toks)).
  assert (Permutation toks (sort by_name (sort by_asset toks))) as Hp.
  { transitivity (sort by_asset toks); apply Hsort. }
  pose proof (mapM_from_entry _ _ _ Ht) as HF.
  split; [exact (main_ok _ _ _ _ _ _ _ Ht) |]. split.
  - rewrite <- Hp.
    assert (map e_symbol entries = map symbol toks) as ->; [| reflexivity].
    clear - HF. induction HF as [| e t entries toks [(Hs & _) _] _ IH]; [reflexivity |].
    cbn [map]. now rewrite Hs, IH.
  - apply (Permutation_Forall Hp).
    clear - HF. induction HF as [| e t entries toks H _ IH]; constructor.
    + exists e. split; [now left | exact H].
    + eapply Forall_impl; [| exact IH].
      intros t' (e' & Hin & H'). exists e'. split; [now right | exact H'].
Qed.

Lemma sections_show_records_witness :
  exists secs,
    main toString Sample.oracle insertion_sort
      [Sample.synth_sBTC; Sample.synth_iBTC] [Sample.SNX; Sample.iBTC; Sample.sBTC]
      Sample.empty_world
    = (writeFileSync (document toString Sample.oracle secs)
         (console_log "Building tokens.md" Sample.empty_world), Ok tt)
    /\ Permutation ["SNX"; "iBTC"; "sBTC"] (map symbol secs).
Proof.
  destruct (sections_show_records toString Sample.oracle insertion_sort
              [Sample.synth_sBTC; Sample.synth_iBTC] [Sample.SNX; Sample.iBTC; Sample.sBTC]
              Sample.empty_world insertion_sort_sorts) as (secs & Hm & Hp & _).
  - intros e [<- | [<- | [<- | []]]]; [now left | right; discriminate | right; discriminate].
  - exists secs. split; [exact Hm | exact Hp].
Defined.

(** X12.  With no token record at all the run still completes: it writes a
    document that consists of the heading and the tip alone. *)
Theorem main_empty
    (format : number -> string) (snxOracle : string)
    (sort : (token -> token -> Z) -> list token -> list token)
    (synths : list synth) (w : world) :
  sorts sort ->
  main format snxOracle sort synths [] w
  = (writeFileSync (content_header ++ nl ++ nl)
       (console_log "Building tokens.md" w), Ok tt).
Proof.
  intros Hsort.
  assert (forall cmp, sort cmp [] = []) as Hnil.
  { intros cmp. destruct (Hsort cmp []) as [Hp _]. now apply Permutation_nil. }
  unfold main, tokens, content, sections. cbn [mapM bind].
  now rewrite !Hnil.
Qed.

Lemma main_empty_witness :
  list_md (fst (main toString Sample.oracle insertion_sort [] [] Sample.empty_world))
  = Some (content_header ++ nl ++ nl).
Proof. now rewrite (main_empty _ _ _ _ _ insertion_sort_sorts). Defined.
